(** * A shallow embedding of [patatune/objective.py]

    The four objective variants ([Objective], [ElementWiseObjective],
    [BatchObjective], [AsyncElementWiseObjective]) translated into Rocq.
    Python exceptions are the [Err] branch of a small result monad, numpy
    arrays of rank one and two are [ndarray], and the [asyncio.gather] of a
    task group is a function of the completion order chosen by the event loop. *)

From Stdlib Require Import String Ascii.
From Stdlib Require Import List ZArith Bool Lia Arith.
Import ListNotations.

(** ** Python exceptions and the result monad *)

Inductive exc : Type :=
| ValueError
| TypeError
| ZeroDivisionError
| Exception (tag : nat).   (** an exception class of the user's code *)

Inductive result (A : Type) : Type :=
| Ok (a : A)
| Err (e : exc).
Arguments Ok {A} a.
Arguments Err {A} e.

Definition bind {A B : Type} (m : result A) (k : A -> result B) : result B :=
  match m with
  | Ok a => k a
  | Err e => Err e
  end.

Notation "x <- m ;; k" := (bind m (fun x => k))
  (at level 61, m at next level, right associativity).

(** [[f x for x in xs]]: calls in list order, the first exception escapes. *)
Fixpoint map_py {A B : Type} (f : A -> result B) (xs : list A) : result (list B) :=
  match xs with
  | [] => Ok []
  | x :: xs' => y <- f x ;; ys <- map_py f xs' ;; Ok (y :: ys)
  end.

(** ** numpy arrays

    [A1 v] has shape [(len v,)]; [A2 c rows] has shape [(len rows, c)],
    every row of length [c] (the column count is kept for empty arrays). *)

Inductive ndarray : Type :=
| A1 (v : list Z)
| A2 (ncols : nat) (rows : list (list Z)).

(** [np.shape(a)] *)
Definition shape (a : ndarray) : list nat :=
  match a with
  | A1 v => [length v]
  | A2 c rows => [length rows; c]
  end.

(** A Python value returned by a per-item objective function: a number or a
    flat vector of numbers. *)
Inductive pyval : Type :=
| Scalar (z : Z)
| Vector (v : list Z).

Definition scalar_of (p : pyval) : option Z :=
  match p with Scalar z => Some z | Vector _ => None end.

Definition vector_of (p : pyval) : option (list Z) :=
  match p with Vector v => Some v | Scalar _ => None end.

Fixpoint all_some {A : Type} (l : list (option A)) : option (list A) :=
  match l with
  | [] => Some []
  | Some a :: l' => match all_some l' with Some r => Some (a :: r) | None => None end
  | None :: _ => None
  end.

(** [np.array(vals)] of a list of per-item values: a flat array of scalars,
    a matrix of equally long vectors, a [ValueError] for an inhomogeneous list. *)
Definition np_array_vals (vals : list pyval) : result ndarray :=
  match vals with
  | [] => Ok (A1 [])
  | v0 :: _ =>
      match all_some (map scalar_of vals) with
      | Some zs => Ok (A1 zs)
      | None =>
          match all_some (map vector_of vals) with
          | Some vs =>
              let k := match v0 with Vector v => length v | Scalar _ => 0%nat end in
              if forallb (fun v => Nat.eqb (length v) k) vs then Ok (A2 k vs)
              else Err ValueError
          | None => Err ValueError
          end
      end
  end.

(** [np.array(solutions)] of a list of flat rows. *)
Definition np_array_rows (sols : list (list Z)) : result ndarray :=
  match sols with
  | [] => Ok (A1 [])
  | r :: _ =>
      if forallb (fun s => Nat.eqb (length s) (length r)) sols
      then Ok (A2 (length r) sols)
      else Err ValueError
  end.

(** Column [j] of a matrix given by its rows. *)
Definition column (j : nat) (rows : list (list Z)) : list Z :=
  map (fun row => nth j row 0%Z) rows.

(** [a.T] *)
Definition transpose (a : ndarray) : ndarray :=
  match a with
  | A1 v => A1 v
  | A2 c rows => A2 (length rows) (map (fun j => column j rows) (seq 0 c))
  end.

(** Broadcasting of the last axis (width [w]) against a vector of length [l]. *)
Definition broadcast_width (w l : nat) : option nat :=
  if Nat.eqb w l then Some w
  else if Nat.eqb l 1 then Some w
  else if Nat.eqb w 1 then Some l
  else None.

Fixpoint mul_pointwise (xs ds : list Z) : list Z :=
  match xs, ds with
  | x :: xs', d :: ds' => (x * d)%Z :: mul_pointwise xs' ds'
  | _, _ => []
  end.

(** One row times the [directions] vector, numpy broadcasting. *)
Definition mul_row (row ds : list Z) : list Z :=
  if Nat.eqb (length row) (length ds) then mul_pointwise row ds
  else if Nat.eqb (length ds) 1 then map (fun x => x * hd 0 ds)%Z row
  else map (fun d => hd 0 row * d)%Z ds.

(** [a * self.directions] *)
Definition mul_directions (a : ndarray) (ds : list Z) : result ndarray :=
  match a with
  | A1 v =>
      match broadcast_width (length v) (length ds) with
      | Some _ => Ok (A1 (mul_row v ds))
      | None => Err ValueError
      end
  | A2 c rows =>
      match broadcast_width c (length ds) with
      | Some w => Ok (A2 w (map (fun row => mul_row row ds) rows))
      | None => Err ValueError
      end
  end.

(** [np.concatenate(arrays)] along axis 0. *)
Definition np_concatenate (arrs : list ndarray) : result ndarray :=
  match arrs with
  | [] => Err ValueError
  | A1 _ :: _ =>
      match all_some (map (fun a => match a with A1 v => Some v | A2 _ _ => None end) arrs) with
      | Some vs => Ok (A1 (concat vs))
      | None => Err ValueError
      end
  | A2 c _ :: _ =>
      match all_some (map (fun a => match a with
                                    | A2 c' rows => if Nat.eqb c' c then Some rows else None
                                    | A1 _ => None end) arrs) with
      | Some rs => Ok (A2 c (concat rs))
      | None => Err ValueError
      end
  end.

(** ** Python builtins used by the code *)

(** [[x] * n] *)
Definition py_repeat {A : Type} (x : A) (n : Z) : list A := repeat x (Z.to_nat n).

(** [range(start, stop, step)] for a non-zero [step]. *)
Definition py_range (start stop step : Z) : list Z :=
  let count :=
    (if 0 <? step then (if start <? stop then (stop - start + step - 1) / step else 0)
     else (if stop <? start then (start - stop - step - 1) / (- step) else 0))%Z in
  map (fun k => start + Z.of_nat k * step)%Z (seq 0 (Z.to_nat count)).

(** [l[i:j]], with Python's treatment of negative and out-of-range bounds. *)
Definition py_slice {A : Type} (l : list A) (i j : Z) : list A :=
  let n := Z.of_nat (length l) in
  let norm x := if (x <? 0)%Z then Z.max 0 (x + n) else Z.min x n in
  let i' := norm i in
  let j' := norm j in
  firstn (Z.to_nat (j' - i')) (skipn (Z.to_nat i') l).

(** [l[i:]] *)
Definition py_slice_from {A : Type} (l : list A) (i : Z) : list A :=
  py_slice l i (Z.of_nat (length l)).

(** Decimal digits of a natural number, as [str(i)] prints it. *)
Fixpoint digits_aux (fuel n : nat) (acc : string) : string :=
  match fuel with
  | O => acc
  | S fuel' =>
      let acc' := String (ascii_of_nat (48 + n mod 10)) acc in
      if Nat.ltb n 10 then acc' else digits_aux fuel' (n / 10) acc'
  end.

Definition string_of_nat (n : nat) : string := digits_aux (S n) n EmptyString.

(** ** [Objective.__init__] *)

(** The first constructor argument: a list of functions, or a single one that
    the constructor wraps into a list. *)
Inductive funs_arg (F : Type) : Type :=
| FunList (l : list F)
| SingleFun (f : F).
Arguments FunList {F} l.
Arguments SingleFun {F} f.

Record objective (F : Type) : Type := mkObjective {
  objective_functions : list F;
  num_objectives : Z;
  directions : list Z;
  objective_names : list string;
  true_pareto : option (list (list Z))
}.
Arguments mkObjective {F}.
Arguments objective_functions {F}.
Arguments num_objectives {F}.
Arguments directions {F}.
Arguments objective_names {F}.
Arguments true_pareto {F}.

(** The loop over the direction tokens. *)
Fixpoint parse_directions (ds : list string) : result (list Z) :=
  match ds with
  | [] => Ok []
  | d :: ds' =>
      if orb (String.eqb d "minimize") (String.eqb d "maximize") then
        rest <- parse_directions ds' ;;
        Ok ((if String.eqb d "minimize" then 1 else -1)%Z :: rest)
      else Err ValueError
  end.

(** [[f"objective_{i}" for i in range(n)]] *)
Definition default_names (n : Z) : list string :=
  map (fun i => append "objective_" (string_of_nat i)) (seq 0 (Z.to_nat n)).

(** [self.objective_functions] *)
Definition functions_of {F : Type} (fa : funs_arg F) : list F :=
  match fa with FunList l => l | SingleFun f => [f] end.

(** [self.num_objectives] *)
Definition num_objectives_of {F : Type} (fa : funs_arg F) (num_objectives_arg : option Z) : Z :=
  match num_objectives_arg with
  | None => Z.of_nat (length (functions_of fa))
  | Some n => n
  end.

Definition Objective_init {F : Type} (fa : funs_arg F) (num_objectives_arg : option Z)
    (directions_arg : option (list string)) (names_arg : option (list string))
    (true_pareto_arg : option (list (list Z))) : result (objective F) :=
  let fs := functions_of fa in
  let n := num_objectives_of fa num_objectives_arg in
  dirs <- match directions_arg with
          | None => Ok (py_repeat 1%Z n)
          | Some ds =>
              if negb (Z.eqb (Z.of_nat (length ds)) n) then Err ValueError
              else parse_directions ds
          end ;;
  names <- match names_arg with
           | None => Ok (default_names n)
           | Some ns =>
               if negb (Z.eqb (Z.of_nat (length ns)) n) then Err ValueError
               else Ok ns
           end ;;
  Ok (mkObjective fs n dirs names true_pareto_arg).

(** ** The evaluation of the four variants *)

(** A synchronous objective function called with the whole population
    ([Objective]) or with one candidate ([ElementWiseObjective]). *)
Definition vfun (X : Type) : Type := list X -> result ndarray.
Definition efun (X : Type) : Type := X -> result pyval.

(** An objective function of the asynchronous variants: whether
    [asyncio.iscoroutinefunction] holds of it, and the value (or exception)
    its coroutine produces on an input. *)
Record afun (A B : Type) : Type := mkAfun {
  is_coro : bool;
  acall : A -> result B
}.
Arguments mkAfun {A B}.
Arguments is_coro {A B}.
Arguments acall {A B}.

(** The completion order of the tasks of a group, chosen by the event loop:
    for the [k]-th function and a group of [n] tasks, a list of task indices. *)
Definition schedule : Type := nat -> nat -> list nat.

(** Dispatched tasks: the index of the objective function and the input. *)
Definition trace (A : Type) : Type := list (nat * A).

(** [BatchObjective] carries its [batch_size] next to the base fields. *)
Record batch_objective (F : Type) : Type := mkBatch {
  batch_base : objective F;
  batch_size : Z
}.
Arguments mkBatch {F}.
Arguments batch_base {F}.
Arguments batch_size {F}.

(** [BatchObjective.__init__]: [None] is a call that does not pass the
    required positional [batch_size], a [TypeError] of the call itself. *)
Definition BatchObjective_init {F : Type} (fa : funs_arg F) (batch_size_arg : option Z)
    (num_objectives_arg : option Z) (directions_arg : option (list string))
    (names_arg : option (list string)) (true_pareto_arg : option (list (list Z)))
    : result (batch_objective F) :=
  match batch_size_arg with
  | None => Err TypeError
  | Some b =>
      o <- Objective_init fa num_objectives_arg directions_arg names_arg true_pareto_arg ;;
      Ok (mkBatch o b)
  end.

(** [for sub_r in r] of the vectorized variants: the rows of a 2-D result,
    the result itself when flat. *)
Definition rows_of (r : ndarray) : list (list Z) :=
  match r with
  | A1 v => [v]
  | A2 _ rows => rows
  end.

(** [for sub_r in np.array(r).T] of the element-wise variants. *)
Definition ew_columns (r : ndarray) : list (list Z) :=
  match r with
  | A1 v => [v]
  | A2 _ _ => rows_of (transpose r)
  end.

(** [asyncio.gather( *tasks)]: the first task to complete with an exception,
    in completion order, fails the joint wait; otherwise the values in the
    order of the tasks. *)
Fixpoint first_failure {B : Type} (order : list nat) (outs : list (result B)) : option exc :=
  match order with
  | [] => None
  | i :: order' =>
      match nth_error outs i with
      | Some (Err e) => Some e
      | _ => first_failure order' outs
      end
  end.

Fixpoint all_ok {B : Type} (outs : list (result B)) : result (list B) :=
  match outs with
  | [] => Ok []
  | o :: outs' => b <- o ;; bs <- all_ok outs' ;; Ok (b :: bs)
  end.

Definition gather {B : Type} (order : list nat) (outs : list (result B)) : result (list B) :=
  match first_failure order outs with
  | Some e => Err e
  | None => all_ok outs
  end.

(** [_async_evaluate(obj_func, inputs)] run by [asyncio.run] for the [k]-th
    function (the same body in both asynchronous variants). *)
Definition async_evaluate {A B : Type} (sched : schedule) (k : nat) (f : afun A B)
    (inputs : list A) : trace A * result (list B) :=
  if negb (is_coro f) then ([], Err ValueError)
  else (map (fun x => (k, x)) inputs,
        gather (sched k (length inputs)) (map (acall f) inputs)).

Section Evaluate.
Variable X : Type.

(** [Objective.evaluate], up to the [solutions] array. *)
Definition Objective_solutions (fs : list (vfun X)) (items : list X) : result ndarray :=
  res <- map_py (fun f => f items) fs ;;
  np_array_rows (flat_map rows_of res).

Definition Objective_evaluate (o : objective (vfun X)) (items : list X) : result ndarray :=
  sols <- Objective_solutions (objective_functions o) items ;;
  mul_directions sols (directions o).

(** [ElementWiseObjective.evaluate], up to [np.array(solutions).T]. *)
Definition ElementWise_solutions (fs : list (efun X)) (items : list X) : result ndarray :=
  res <- map_py (fun f => map_py f items) fs ;;
  arrs <- map_py np_array_vals res ;;
  sols <- np_array_rows (flat_map ew_columns arrs) ;;
  Ok (transpose sols).

Definition ElementWise_evaluate (o : objective (efun X)) (items : list X) : result ndarray :=
  sols <- ElementWise_solutions (objective_functions o) items ;;
  mul_directions sols (directions o).

(** The batches of [BatchObjective.evaluate]. *)
Definition make_batches (items : list X) (b : Z) : result (list (list X)) :=
  if Z.eqb b 0 then Err ZeroDivisionError
  else
    let n := Z.of_nat (length items) in
    if Z.eqb (n mod b) 0 then
      Ok (map (fun i => py_slice items i (i + b)) (py_range 0 n b))
    else
      Ok (map (fun i => py_slice items i (i + b)) (py_range 0 (n - n mod b) b)
          ++ [py_slice_from items (n - n mod b)]).

(** The loop over the functions of [BatchObjective.evaluate]: one group of
    concurrent batch tasks per function, the groups in sequence. *)
Fixpoint batch_groups (sched : schedule) (k : nat) (fs : list (afun (list X) ndarray))
    (bs : list (list X)) : trace (list X) * result (list ndarray) :=
  match fs with
  | [] => ([], Ok [])
  | f :: fs' =>
      if negb (is_coro f) then ([], Err ValueError)
      else
        let (tr, out) := async_evaluate sched k f bs in
        match out with
        | Err e => (tr, Err e)
        | Ok outs =>
            match np_concatenate outs with
            | Err e => (tr, Err e)
            | Ok r =>
                let (tr', rest) := batch_groups sched (S k) fs' bs in
                (tr ++ tr', rs <- rest ;; Ok (r :: rs))
            end
        end
  end.

Definition Batch_solutions (sched : schedule) (o : batch_objective (afun (list X) ndarray))
    (items : list X) : trace (list X) * result ndarray :=
  match make_batches items (batch_size o) with
  | Err e => ([], Err e)
  | Ok bs =>
      let (tr, res) := batch_groups sched 0 (objective_functions (batch_base o)) bs in
      (tr, rs <- res ;; np_array_rows (flat_map rows_of rs))
  end.

Definition Batch_evaluate (sched : schedule) (o : batch_objective (afun (list X) ndarray))
    (items : list X) : trace (list X) * result ndarray :=
  let (tr, sols) := Batch_solutions sched o items in
  (tr, s <- sols ;; mul_directions s (directions (batch_base o))).

(** The loop over the functions of [AsyncElementWiseObjective.evaluate]:
    one group of concurrent per-candidate tasks per function. *)
Fixpoint async_groups (sched : schedule) (k : nat) (fs : list (afun X pyval))
    (items : list X) : trace X * result (list ndarray) :=
  match fs with
  | [] => ([], Ok [])
  | f :: fs' =>
      let (tr, out) := async_evaluate sched k f items in
      match out with
      | Err e => (tr, Err e)
      | Ok outs =>
          match np_array_vals outs with
          | Err e => (tr, Err e)
          | Ok r =>
              let (tr', rest) := async_groups sched (S k) fs' items in
              (tr ++ tr', rs <- rest ;; Ok (r :: rs))
          end
      end
  end.

Definition AsyncElementWise_solutions (sched : schedule) (o : objective (afun X pyval))
    (items : list X) : trace X * result ndarray :=
  let (tr, res) := async_groups sched 0 (objective_functions o) items in
  (tr, rs <- res ;; sols <- np_array_rows (flat_map ew_columns rs) ;; Ok (transpose sols)).

Definition AsyncElementWise_evaluate (sched : schedule) (o : objective (afun X pyval))
    (items : list X) : trace X * result ndarray :=
  let (tr, sols) := AsyncElementWise_solutions sched o items in
  (tr, s <- sols ;; mul_directions s (directions o)).

End Evaluate.

Arguments Objective_solutions {X}.
Arguments Objective_evaluate {X}.
Arguments ElementWise_solutions {X}.
Arguments ElementWise_evaluate {X}.
Arguments make_batches {X}.
Arguments batch_groups {X}.
Arguments Batch_solutions {X}.
Arguments Batch_evaluate {X}.
Arguments async_groups {X}.
Arguments AsyncElementWise_solutions {X}.
Arguments AsyncElementWise_evaluate {X}.

(** ** Auxiliary definitions of the proofs *)

(** The [j]-th chunk of size [b]. *)
Definition chunk {A : Type} (l : list A) (b j : nat) : list A := firstn b (skipn (j * b) l).

(** The batches of [make_batches] for a positive batch size, in [nat]. *)
Definition batches_nat {A : Type} (l : list A) (b : nat) : list (list A) :=
  let n := length l in
  if Nat.eqb (n mod b) 0 then map (chunk l b) (seq 0 (n / b))
  else map (chunk l b) (seq 0 (n / b)) ++ [skipn (n / b * b) l].

(** A two-dimensional array is rectangular: all rows have its column count. *)
Definition wf_nd (a : ndarray) : Prop :=
  match a with
  | A1 _ => True
  | A2 c rows => Forall (fun r => length r = c) rows
  end.

(** An output row of the sign step is its input row, or numpy's broadcast of
    a one-entry input row to the width [l] of [directions]. *)
Definition row_unsigned (l : nat) (row out : list Z) : Prop :=
  out = row \/ exists x, row = [x] /\ out = repeat x l.

Definition unsigned_broadcast (l : nat) (a b : ndarray) : Prop :=
  match a, b with
  | A1 v, A1 w => row_unsigned l v w
  | A2 _ rows, A2 _ rows' => Forall2 (row_unsigned l) rows rows'
  | _, _ => False
  end.

(** The numbers a per-item value contributes to its candidate's row. *)
Definition pyval_values (p : pyval) : list Z :=
  match p with
  | Scalar z => [z]
  | Vector v => v
  end.

(** The raw row of candidate [i]: the values of every function on it, in the
    order the functions are declared. *)
Definition raw_row (res : list (list pyval)) (i : nat) : list Z :=
  concat (map (fun r => pyval_values (nth i r (Scalar 0))) res).

(** The two forms of one objective function [g] with [k] values per
    candidate: vectorized (the population in, the (N, k) matrix of the
    per-candidate results out) and per item (one candidate in, its vector of
    [k] values out). *)
Definition vectorized_of {X : Type} (k : nat) (g : X -> result (list Z)) : vfun X :=
  fun items => vs <- map_py g items ;; Ok (A2 k vs).

Definition per_item_of {X : Type} (g : X -> result (list Z)) : efun X :=
  fun x => v <- g x ;; Ok (Vector v).

(** Entry (i, j) of a returned matrix ([a[i][j]]). *)
Definition entry (a : ndarray) (i j : nat) : Z :=
  nth j (nth i (rows_of a) []) 0%Z.

(** The stacking of [ElementWiseObjective.evaluate] after the calls. *)
Definition ew_stack (arrs : list ndarray) : result ndarray :=
  sols <- np_array_rows (flat_map ew_columns arrs) ;;
  Ok (transpose sols).

(** ** Auxiliary definitions of the further properties *)

(** Reading back the decimal digits written by [string_of_nat]. *)
Fixpoint digits_value (a : nat) (s : string) : nat :=
  match s with
  | EmptyString => a
  | String c s' => digits_value (10 * a + (nat_of_ascii c - 48)) s'
  end.

(** The shape numpy gives a per-item value: none for a number, the length
    for a vector. *)
Definition pyval_kind (p : pyval) : option nat :=
  match p with
  | Scalar _ => None
  | Vector v => Some (length v)
  end.

(** Negation of every entry of an array. *)
Definition neg_nd (a : ndarray) : ndarray :=
  match a with
  | A1 v => A1 (map Z.opp v)
  | A2 c rows => A2 c (map (map Z.opp) rows)
  end.

Definition neg_result (r : result ndarray) : result ndarray :=
  b <- r ;; Ok (neg_nd b).

(** The direction token of the opposite sense. *)
Definition swap_direction (t : string) : string :=
  if String.eqb t "minimize" then "maximize"
  else if String.eqb t "maximize" then "minimize" else t.

(** The same objective set with every direction reversed. *)
Definition negate_directions {F : Type} (o : objective F) : objective F :=
  mkObjective (objective_functions o) (num_objectives o) (map Z.opp (directions o))
              (objective_names o) (true_pareto o).

(** The group of the [j]-th function of [AsyncElementWiseObjective.evaluate]
    completes: the function is a coroutine function, [asyncio.gather]
    returns and [np.array] of its values succeeds. *)
Definition async_group_ok {X : Type} (sched : schedule) (j : nat) (f : afun X pyval)
    (items : list X) : Prop :=
  is_coro f = true /\
  exists outs r, gather (sched j (length items)) (map (acall f) items) = Ok outs /\
                 np_array_vals outs = Ok r.

(** The same for [BatchObjective.evaluate], with [np.concatenate]. *)
Definition batch_group_ok {X : Type} (sched : schedule) (j : nat) (f : afun (list X) ndarray)
    (bs : list (list X)) : Prop :=
  is_coro f = true /\
  exists outs r, gather (sched j (length bs)) (map (acall f) bs) = Ok outs /\
                 np_concatenate outs = Ok r.

(** ** Lemmas on the Python builtins *)

Lemma py_range_multiple (m b : nat) :
  (0 < b)%nat ->
  py_range 0 (Z.of_nat (m * b)) (Z.of_nat b) = map (fun j => Z.of_nat (j * b)) (seq 0 m).
Proof.
  intros Hb. unfold py_range.
  assert (Hc : (if 0 <? Z.of_nat (m * b) then (Z.of_nat (m * b) - 0 + Z.of_nat b - 1) / Z.of_nat b
               else 0)%Z = Z.of_nat m).
  { destruct (Z.ltb_spec 0 (Z.of_nat (m * b))) as [H|H].
    - rewrite Nat2Z.inj_mul.
      replace (Z.of_nat m * Z.of_nat b - 0 + Z.of_nat b - 1)%Z
        with (Z.of_nat m * Z.of_nat b + (Z.of_nat b - 1))%Z by lia.
      rewrite Z.div_add_l by lia. rewrite (Z.div_small (Z.of_nat b - 1)) by lia. lia.
    - assert (m = 0%nat) by nia. subst. reflexivity. }
  replace (0 <? Z.of_nat b)%Z with true by (symmetry; apply Z.ltb_lt; lia).
  rewrite Hc, Nat2Z.id. apply map_ext. intros j. lia.
Qed.

Lemma py_slice_chunk {A : Type} (l : list A) (i b : nat) :
  (i + b <= length l)%nat ->
  py_slice l (Z.of_nat i) (Z.of_nat i + Z.of_nat b) = firstn b (skipn i l).
Proof.
  intros H. unfold py_slice.
  replace (Z.of_nat i <? 0)%Z with false by (symmetry; apply Z.ltb_ge; lia).
  replace (Z.of_nat i + Z.of_nat b <? 0)%Z with false by (symmetry; apply Z.ltb_ge; lia).
  rewrite (Z.min_l (Z.of_nat i)) by lia.
  rewrite Z.min_l by lia.
  replace (Z.of_nat i + Z.of_nat b - Z.of_nat i)%Z with (Z.of_nat b) by lia.
  rewrite !Nat2Z.id. reflexivity.
Qed.

Lemma py_slice_from_skipn {A : Type} (l : list A) (i : nat) :
  (i <= length l)%nat -> py_slice_from l (Z.of_nat i) = skipn i l.
Proof.
  intros H. unfold py_slice_from, py_slice.
  replace (Z.of_nat i <? 0)%Z with false by (symmetry; apply Z.ltb_ge; lia).
  replace (Z.of_nat (length l) <? 0)%Z with false by (symmetry; apply Z.ltb_ge; lia).
  rewrite !Z.min_l by lia. rewrite Nat2Z.id.
  apply firstn_all2. rewrite length_skipn. lia.
Qed.

Lemma firstn_add {A : Type} (a c : nat) (l : list A) :
  firstn (a + c) l = firstn a l ++ firstn c (skipn a l).
Proof.
  revert l. induction a as [|a IH]; intros l; simpl.
  - reflexivity.
  - destruct l as [|x l]; simpl.
    + rewrite firstn_nil. reflexivity.
    + rewrite IH. reflexivity.
Qed.

Lemma concat_chunks {A : Type} (l : list A) (b m : nat) :
  concat (map (chunk l b) (seq 0 m)) = firstn (m * b) l.
Proof.
  induction m as [|m IH].
  - reflexivity.
  - rewrite seq_S, map_app, concat_app, IH. cbn [map concat]. rewrite app_nil_r.
    replace (S m * b)%nat with (m * b + b)%nat by lia.
    rewrite firstn_add. reflexivity.
Qed.

Lemma length_chunk {A : Type} (l : list A) (b j : nat) :
  (j * b + b <= length l)%nat -> length (chunk l b j) = b.
Proof.
  intros H. unfold chunk. rewrite length_firstn, length_skipn. lia.
Qed.

Lemma make_batches_nat {X : Type} (items : list X) (b : nat) :
  (0 < b)%nat -> make_batches items (Z.of_nat b) = Ok (batches_nat items b).
Proof.
  intros Hb. unfold make_batches, batches_nat.
  replace (Z.of_nat b =? 0)%Z with false by (symmetry; apply Z.eqb_neq; lia).
  set (n := length items).
  assert (Hdm : (n = n / b * b + n mod b)%nat).
  { rewrite (Nat.div_mod_eq n b) at 1. lia. }
  assert (Hmodlt : (n mod b < b)%nat) by (apply Nat.mod_upper_bound; lia).
  rewrite <- Nat2Z.inj_mod.
  assert (Hchunks : forall m, (m * b <= n)%nat ->
     map (fun i => py_slice items i (i + Z.of_nat b)) (py_range 0 (Z.of_nat (m * b)) (Z.of_nat b))
     = map (chunk items b) (seq 0 m)).
  { intros m Hm. rewrite py_range_multiple by exact Hb. rewrite map_map.
    apply map_ext_in. intros j Hj. apply in_seq in Hj.
    unfold chunk. apply py_slice_chunk.
    fold n. nia. }
  destruct (Nat.eqb_spec (n mod b) 0) as [H0|H0].
  - rewrite H0. simpl Z.eqb. cbv iota.
    rewrite Hdm at 1. rewrite H0, Nat.add_0_r.
    f_equal. apply Hchunks. lia.
  - replace (Z.of_nat (n mod b) =? 0)%Z with false by (symmetry; apply Z.eqb_neq; lia).
    replace (Z.of_nat n - Z.of_nat (n mod b))%Z with (Z.of_nat (n / b * b)) by lia.
    rewrite Hchunks by lia. rewrite py_slice_from_skipn by lia. reflexivity.
Qed.

Lemma nth_map_chunk {A : Type} (l : list A) (b q i : nat) :
  (i < q)%nat -> nth i (map (chunk l b) (seq 0 q)) [] = chunk l b i.
Proof.
  intros Hi.
  rewrite (nth_indep _ [] (chunk l b 0)) by (rewrite length_map, length_seq; exact Hi).
  rewrite map_nth, seq_nth by exact Hi. reflexivity.
Qed.

(** ** C4: the batch partition of [BatchObjective.evaluate] *)

(** C4. For N >= 1 candidates and a batch size B >= 1 the batches are
    ceil(N/B) contiguous chunks: all but the last of length B, the last of
    length N mod B (B when B divides N) and never empty, and their
    concatenation in order is the candidate sequence. *)
Theorem make_batches_partition {X : Type} (items : list X) (B : Z) :
  (1 <= length items)%nat -> (1 <= B)%Z ->
  exists bs, make_batches items B = Ok bs /\
    Z.of_nat (length bs) = ((Z.of_nat (length items) + B - 1) / B)%Z /\
    (forall i, (S i < length bs)%nat -> Z.of_nat (length (nth i bs [])) = B) /\
    Z.of_nat (length (last bs [])) =
      (if (Z.of_nat (length items) mod B =? 0)%Z then B
       else Z.of_nat (length items) mod B)%Z /\
    last bs [] <> [] /\
    concat bs = items.
Proof.
  intros HN HB.
  set (b := Z.to_nat B).
  assert (HBb : B = Z.of_nat b) by (unfold b; lia).
  assert (Hb : (0 < b)%nat) by lia.
  rewrite HBb. rewrite make_batches_nat by exact Hb.
  exists (batches_nat items b). split; [reflexivity|].
  unfold batches_nat.
  set (n := length items) in *.
  set (q := (n / b)%nat).
  assert (Hdm : (n = q * b + n mod b)%nat).
  { unfold q. rewrite (Nat.div_mod_eq n b) at 1. lia. }
  assert (Hmodlt : (n mod b < b)%nat) by (apply Nat.mod_upper_bound; lia).
  rewrite <- Nat2Z.inj_mod.
  destruct (Nat.eqb_spec (n mod b) 0) as [H0|H0].
  - replace (Z.of_nat (n mod b) =? 0)%Z with true by (symmetry; apply Z.eqb_eq; lia).
    assert (Hq : (1 <= q)%nat) by nia.
    assert (Eq : q = S (q - 1)) by lia.
    repeat split.
    + rewrite length_map, length_seq.
      apply (Z.div_unique _ _ _ (Z.of_nat b - 1)); lia.
    + intros i Hi. rewrite length_map, length_seq in Hi.
      rewrite nth_map_chunk by lia. rewrite length_chunk by nia. reflexivity.
    + rewrite Eq, seq_S, map_app. cbn [map]. rewrite last_last.
      rewrite length_chunk by nia. reflexivity.
    + rewrite Eq, seq_S, map_app. cbn [map]. rewrite last_last. intros He.
      assert (length (chunk items b (0 + (q - 1))) = b) by (apply length_chunk; nia).
      rewrite He in H. simpl in H. lia.
    + rewrite concat_chunks. replace (q * b)%nat with n by lia. apply firstn_all.
  - replace (Z.of_nat (n mod b) =? 0)%Z with false by (symmetry; apply Z.eqb_neq; lia).
    repeat split.
    + rewrite length_app, length_map, length_seq. simpl length.
      apply (Z.div_unique _ _ _ (Z.of_nat (n mod b) - 1)); lia.
    + intros i Hi. rewrite length_app, length_map, length_seq in Hi. simpl in Hi.
      rewrite app_nth1 by (rewrite length_map, length_seq; lia).
      rewrite nth_map_chunk by lia. rewrite length_chunk by nia. reflexivity.
    + rewrite last_last, length_skipn. lia.
    + rewrite last_last. intros He.
      assert (Hl : length (skipn (q * b) items) = (n - q * b)%nat) by apply length_skipn.
      rewrite He in Hl. simpl in Hl. lia.
    + rewrite concat_app, concat_chunks. simpl. rewrite app_nil_r. apply firstn_skipn.
Qed.

(** ** Construction *)

Lemma parse_directions_ok (ds : list string) (dirs : list Z) :
  parse_directions ds = Ok dirs -> length dirs = length ds.
Proof.
  revert dirs. induction ds as [|d ds IH]; intros dirs H; simpl in H.
  - injection H as <-. reflexivity.
  - destruct (orb _ _); [|discriminate].
    destruct (parse_directions ds) as [r|e]; simpl in H; [|discriminate].
    injection H as <-. simpl. f_equal. apply IH. reflexivity.
Qed.

Lemma parse_directions_invalid (ds : list string) (t : string) :
  In t ds -> t <> "minimize"%string -> t <> "maximize"%string ->
  parse_directions ds = Err ValueError.
Proof.
  induction ds as [|d ds IH]; intros Hin Hmin Hmax; [destruct Hin|].
  simpl. destruct Hin as [<-|Hin].
  - apply String.eqb_neq in Hmin. apply String.eqb_neq in Hmax.
    rewrite Hmin, Hmax. reflexivity.
  - destruct (orb _ _); [|reflexivity].
    rewrite IH by assumption. reflexivity.
Qed.

Ltac init_fields :=
  repeat split; try reflexivity; intros;
  repeat match goal with
         | E : Some _ = Some _ |- _ => injection E as E; subst
         | E : None = Some _ |- _ => discriminate E
         | E : Some _ = None |- _ => discriminate E
         end; auto.

Lemma Objective_init_fields {F : Type} (fa : funs_arg F) num ds ns tp (o : objective F) :
  Objective_init fa num ds ns tp = Ok o ->
  objective_functions o = functions_of fa /\
  num_objectives o = num_objectives_of fa num /\
  (ds = None -> directions o = py_repeat 1%Z (num_objectives_of fa num)) /\
  (forall l, ds = Some l -> Z.of_nat (length l) = num_objectives_of fa num /\
                            parse_directions l = Ok (directions o)) /\
  (ns = None -> objective_names o = default_names (num_objectives_of fa num)) /\
  (forall l, ns = Some l -> Z.of_nat (length l) = num_objectives_of fa num /\
                            objective_names o = l).
Proof.
  unfold Objective_init.
  set (n := num_objectives_of fa num).
  intros H.
  destruct ds as [l|] eqn:Eds.
  - destruct (Z.eqb_spec (Z.of_nat (length l)) n) as [Hl|Hl]; simpl in H; [|discriminate].
    destruct (parse_directions l) as [dirs|e] eqn:Ep; simpl in H; [|discriminate].
    destruct ns as [l'|].
    + destruct (Z.eqb_spec (Z.of_nat (length l')) n) as [Hl'|Hl']; simpl in H; [|discriminate].
      injection H as <-. simpl.
      init_fields.
    + simpl in H. injection H as <-. simpl.
      init_fields.
  - simpl in H. destruct ns as [l'|].
    + destruct (Z.eqb_spec (Z.of_nat (length l')) n) as [Hl'|Hl']; simpl in H; [|discriminate].
      injection H as <-. simpl.
      init_fields.
    + simpl in H. injection H as <-. simpl.
      init_fields.
Qed.

(** ** C7: invalid directions *)

(** C7. A [directions] argument whose length differs from the number of
    objectives, or holding a token other than "minimize" and "maximize", makes
    the construction raise [ValueError]: no objective set is built (for the
    base constructor, inherited by the element-wise variants, and for
    [BatchObjective]). *)
Theorem Objective_init_bad_directions {F : Type} (fa : funs_arg F) num ds ns tp :
  (Z.of_nat (length ds) <> num_objectives_of fa num \/
   exists t, In t ds /\ t <> "minimize"%string /\ t <> "maximize"%string) ->
  Objective_init fa num (Some ds) ns tp = Err ValueError /\
  (forall b, BatchObjective_init fa (Some b) num (Some ds) ns tp = Err ValueError).
Proof.
  intros H.
  assert (Hbase : Objective_init fa num (Some ds) ns tp = Err ValueError).
  { unfold Objective_init.
    destruct (Z.eqb_spec (Z.of_nat (length ds)) (num_objectives_of fa num)) as [Hl|Hl].
    - destruct H as [H|[t [Hin [H1 H2]]]]; [contradiction|].
      simpl. rewrite (parse_directions_invalid ds t) by assumption. reflexivity.
    - reflexivity. }
  split; [exact Hbase|]. intros b. unfold BatchObjective_init. rewrite Hbase. reflexivity.
Qed.

(** ** C8: lengths of [directions] and [names] *)

Lemma nth_default_names (n : Z) (i : nat) :
  (i < Z.to_nat n)%nat ->
  nth i (default_names n) ""%string = append "objective_" (string_of_nat i).
Proof.
  intros Hi. unfold default_names.
  rewrite (nth_indep _ _ (append "objective_" (string_of_nat 0)))
    by (rewrite length_map, length_seq; exact Hi).
  rewrite (map_nth (fun j => append "objective_" (string_of_nat j))).
  rewrite seq_nth by exact Hi. reflexivity.
Qed.

(** C8. After a successful construction of any variant whose number of
    objectives is not negative (always so when it is defaulted),
    len(directions) = len(names) = num_objectives, and defaulted names are
    "objective_<i>". A successful construction with a negative number of
    objectives had [directions] and [names] omitted and has both lists
    empty; and every explicit negative [num_objectives] with [directions]
    and [names] omitted is accepted, by every variant, with both lists
    empty. *)
Theorem construction_lengths {F : Type} (fa : funs_arg F) num ds ns tp (o : objective F) :
  (Objective_init fa num ds ns tp = Ok o \/
   exists b, BatchObjective_init fa (Some b) num ds ns tp = Ok (mkBatch o b)) ->
  ((0 <= num_objectives o)%Z ->
   Z.of_nat (length (directions o)) = num_objectives o /\
   Z.of_nat (length (objective_names o)) = num_objectives o /\
   (ns = None -> forall i, (i < Z.to_nat (num_objectives o))%nat ->
      nth i (objective_names o) ""%string = append "objective_" (string_of_nat i))) /\
  ((num_objectives o < 0)%Z ->
   ds = None /\ ns = None /\ directions o = [] /\ objective_names o = []) /\
  (forall n b, (n < 0)%Z ->
   Objective_init fa (Some n) None None tp = Ok (mkObjective (functions_of fa) n [] [] tp) /\
   BatchObjective_init fa (Some b) (Some n) None None tp =
     Ok (mkBatch (mkObjective (functions_of fa) n [] [] tp) b)).
Proof.
  intros Hinit.
  assert (H : Objective_init fa num ds ns tp = Ok o).
  { destruct Hinit as [H|[b H]]; [exact H|].
    unfold BatchObjective_init in H.
    destruct (Objective_init fa num ds ns tp) as [o'|e]; simpl in H; [|discriminate].
    injection H as <-. reflexivity. }
  destruct (Objective_init_fields fa num ds ns tp o H)
    as [_ [Hnum [Hdn [Hds [Hnn Hns]]]]].
  rewrite Hnum in *. split; [|split].
  - intros Hn. split; [|split].
    + destruct ds as [l|].
      * destruct (Hds l eq_refl) as [Hl Hp]. apply parse_directions_ok in Hp. lia.
      * rewrite (Hdn eq_refl). unfold py_repeat. rewrite repeat_length. lia.
    + destruct ns as [l|].
      * destruct (Hns l eq_refl) as [Hl ->]. exact Hl.
      * rewrite (Hnn eq_refl). unfold default_names. rewrite length_map, length_seq. lia.
    + intros Hnone i Hi. rewrite (Hnn Hnone). apply nth_default_names. exact Hi.
  - intros Hn. assert (Hz : Z.to_nat (num_objectives_of fa num) = 0%nat) by lia.
    destruct ds as [l|]; [destruct (Hds l eq_refl) as [Hl _]; lia|].
    destruct ns as [l|]; [destruct (Hns l eq_refl) as [Hl _]; lia|].
    split; [reflexivity|]. split; [reflexivity|]. split.
    + rewrite (Hdn eq_refl). unfold py_repeat. rewrite Hz. reflexivity.
    + rewrite (Hnn eq_refl). unfold default_names. rewrite Hz. reflexivity.
  - intros n b Hn. destruct n as [|p|p]; try lia. split; reflexivity.
Qed.

(** C8, refuted as stated: an explicit negative [num_objectives] with
    [directions] and [names] omitted is accepted, and leaves both lists
    empty, so their length is not [num_objectives]. *)
Lemma construction_lengths_negative :
  exists o : objective (vfun nat),
    Objective_init (FunList [fun _ => Ok (A1 [])]) (Some (-1)%Z) None None None = Ok o /\
    directions o = [] /\ objective_names o = [] /\ num_objectives o = (-1)%Z /\
    Z.of_nat (length (directions o)) <> num_objectives o.
Proof.
  eexists. split; [reflexivity|]. simpl. repeat split. discriminate.
Qed.

(** ** C9: the batch size *)

(** C9 (as the code does it). A call without the required [batch_size]
    fails at construction with [TypeError]; a zero [batch_size] is accepted
    at construction, and every later [evaluate] fails with
    [ZeroDivisionError] (from [len(items) % self.batch_size]) before any
    function is checked or any task dispatched. *)
Theorem batch_size_zero_deferred {X : Type} (fa : funs_arg (afun (list X) ndarray)) num ds ns tp :
  BatchObjective_init fa None num ds ns tp = Err TypeError /\
  (forall o, Objective_init fa num ds ns tp = Ok o ->
     BatchObjective_init fa (Some 0%Z) num ds ns tp = Ok (mkBatch o 0%Z) /\
     forall sched items,
       Batch_evaluate sched (mkBatch o 0%Z) items = ([], Err ZeroDivisionError)).
Proof.
  split; [reflexivity|].
  intros o Ho. split.
  - unfold BatchObjective_init. rewrite Ho. reflexivity.
  - intros sched items. reflexivity.
Qed.

(** C9, refuted as stated: a [BatchObjective] with [batch_size = 0] is
    constructed, and the error only appears at [evaluate]. *)
Lemma batch_size_zero_constructed :
  let f : afun (list Z) ndarray := mkAfun true (fun b => Ok (A1 b)) in
  exists bo, BatchObjective_init (FunList [f]) (Some 0%Z) None None None None = Ok bo /\
    batch_size bo = 0%Z /\
    Batch_evaluate (fun _ n => seq 0 n) bo [1%Z] = ([], Err ZeroDivisionError).
Proof.
  intros f. eexists. split; [reflexivity|]. split; reflexivity.
Qed.

(** ** Shapes of the stacked arrays *)

Lemma np_array_rows_wf (sols : list (list Z)) (a : ndarray) :
  np_array_rows sols = Ok a -> wf_nd a.
Proof.
  unfold np_array_rows. destruct sols as [|r rs].
  - intros H. injection H as <-. exact I.
  - destruct (forallb _ _) eqn:E; intros H; [|discriminate].
    injection H as <-. simpl. apply Forall_forall. intros s Hs.
    apply forallb_forall with (x := s) in E; [|exact Hs].
    apply Nat.eqb_eq in E. exact E.
Qed.

Lemma transpose_wf (a : ndarray) : wf_nd (transpose a).
Proof.
  destruct a as [v|c rows]; simpl; [exact I|].
  apply Forall_forall. intros col Hcol. apply in_map_iff in Hcol.
  destruct Hcol as [j [<- _]]. unfold column. apply length_map.
Qed.

Lemma Batch_evaluate_split {X : Type} sched (o : batch_objective (afun (list X) ndarray)) items :
  Batch_evaluate sched o items =
  (fst (Batch_solutions sched o items),
   s <- snd (Batch_solutions sched o items) ;; mul_directions s (directions (batch_base o))).
Proof.
  unfold Batch_evaluate. destruct (Batch_solutions sched o items). reflexivity.
Qed.

Lemma AsyncElementWise_evaluate_split {X : Type} sched (o : objective (afun X pyval)) items :
  AsyncElementWise_evaluate sched o items =
  (fst (AsyncElementWise_solutions sched o items),
   s <- snd (AsyncElementWise_solutions sched o items) ;; mul_directions s (directions o)).
Proof.
  unfold AsyncElementWise_evaluate. destruct (AsyncElementWise_solutions sched o items).
  reflexivity.
Qed.

Lemma Objective_solutions_wf {X : Type} fs (items : list X) a :
  Objective_solutions fs items = Ok a -> wf_nd a.
Proof.
  unfold Objective_solutions. destruct (map_py _ _); simpl; [|discriminate].
  apply np_array_rows_wf.
Qed.

Lemma ElementWise_solutions_wf {X : Type} fs (items : list X) a :
  ElementWise_solutions fs items = Ok a -> wf_nd a.
Proof.
  unfold ElementWise_solutions.
  destruct (map_py _ _); simpl; [|discriminate].
  destruct (map_py _ _); simpl; [|discriminate].
  destruct (np_array_rows _); simpl; [|discriminate].
  intros H. injection H as <-. apply transpose_wf.
Qed.

Lemma Batch_solutions_wf {X : Type} sched (o : batch_objective (afun (list X) ndarray)) items a :
  snd (Batch_solutions sched o items) = Ok a -> wf_nd a.
Proof.
  unfold Batch_solutions. destruct (make_batches _ _); simpl; [|discriminate].
  destruct (batch_groups _ _ _ _) as [tr res]. simpl.
  destruct res; simpl; [|discriminate]. apply np_array_rows_wf.
Qed.

Lemma AsyncElementWise_solutions_wf {X : Type} sched (o : objective (afun X pyval)) items a :
  snd (AsyncElementWise_solutions sched o items) = Ok a -> wf_nd a.
Proof.
  unfold AsyncElementWise_solutions.
  destruct (async_groups _ _ _ _) as [tr res]. simpl.
  destruct res; simpl; [|discriminate].
  destruct (np_array_rows _); simpl; [|discriminate].
  intros H. injection H as <-. apply transpose_wf.
Qed.

(** ** The sign step with all directions [+1] *)

Lemma mul_pointwise_ones (row : list Z) :
  mul_pointwise row (repeat 1%Z (length row)) = row.
Proof.
  induction row as [|x row IH]; simpl; [reflexivity|].
  rewrite IH, Z.mul_1_r. reflexivity.
Qed.

Lemma mul_row_ones (row : list Z) (l w : nat) :
  broadcast_width (length row) l = Some w ->
  row_unsigned l row (mul_row row (repeat 1%Z l)).
Proof.
  unfold broadcast_width, mul_row. rewrite repeat_length.
  destruct (Nat.eqb_spec (length row) l) as [E|E].
  - intros _. left. subst l. apply mul_pointwise_ones.
  - destruct (Nat.eqb_spec l 1) as [E1|E1].
    + intros _. left. subst l. simpl. rewrite map_ext with (g := fun x => x) by (intros; lia).
      apply map_id.
    + destruct (Nat.eqb_spec (length row) 1) as [E2|E2]; [|discriminate].
      intros _. right. destruct row as [|x [|y r]]; try (simpl in E2; lia).
      exists x. split; [reflexivity|]. simpl. clear.
      induction l as [|l IH]; simpl; [reflexivity|]. rewrite Z.mul_1_r, IH. reflexivity.
Qed.

Lemma mul_directions_ones (a b : ndarray) (l : nat) :
  wf_nd a -> mul_directions a (repeat 1%Z l) = Ok b -> unsigned_broadcast l a b.
Proof.
  destruct a as [v|c rows]; simpl; rewrite repeat_length.
  - intros _. destruct (broadcast_width (length v) l) as [w|] eqn:E; intros H; [|discriminate].
    injection H as <-. simpl. eapply mul_row_ones. exact E.
  - intros Hwf. destruct (broadcast_width c l) as [w|] eqn:E; intros H; [|discriminate].
    injection H as <-. simpl.
    induction Hwf as [|r rows Hr Hwf IH]; simpl; constructor; [|exact IH].
    eapply mul_row_ones. rewrite Hr. exact E.
Qed.

(** ** C10: omitted directions *)

(** C10. When [directions] is omitted, every stored direction is [+1]
    (minimize), and for each of the four variants the matrix [evaluate]
    returns is the stacked raw array with no entry negated (rows of width one
    being only broadcast, as numpy does, to the length of [directions]). *)
Theorem default_directions_unsigned {X : Type} :
  (forall (fa : funs_arg (vfun X)) num ns tp o,
     Objective_init fa num None ns tp = Ok o ->
     directions o = py_repeat 1%Z (num_objectives o) /\
     forall items b, Objective_evaluate o items = Ok b ->
       exists a, Objective_solutions (objective_functions o) items = Ok a /\
                 unsigned_broadcast (length (directions o)) a b) /\
  (forall (fa : funs_arg (efun X)) num ns tp o,
     Objective_init fa num None ns tp = Ok o ->
     directions o = py_repeat 1%Z (num_objectives o) /\
     forall items b, ElementWise_evaluate o items = Ok b ->
       exists a, ElementWise_solutions (objective_functions o) items = Ok a /\
                 unsigned_broadcast (length (directions o)) a b) /\
  (forall (fa : funs_arg (afun (list X) ndarray)) bsz num ns tp o,
     BatchObjective_init fa (Some bsz) num None ns tp = Ok (mkBatch o bsz) ->
     directions o = py_repeat 1%Z (num_objectives o) /\
     forall sched items b, snd (Batch_evaluate sched (mkBatch o bsz) items) = Ok b ->
       exists a, snd (Batch_solutions sched (mkBatch o bsz) items) = Ok a /\
                 unsigned_broadcast (length (directions o)) a b) /\
  (forall (fa : funs_arg (afun X pyval)) num ns tp o,
     Objective_init fa num None ns tp = Ok o ->
     directions o = py_repeat 1%Z (num_objectives o) /\
     forall sched items b, snd (AsyncElementWise_evaluate sched o items) = Ok b ->
       exists a, snd (AsyncElementWise_solutions sched o items) = Ok a /\
                 unsigned_broadcast (length (directions o)) a b).
Proof.
  assert (Hdirs : forall F (fa : funs_arg F) num ns tp o,
            Objective_init fa num None ns tp = Ok o ->
            directions o = py_repeat 1%Z (num_objectives o)).
  { intros F fa num ns tp o H.
    destruct (Objective_init_fields fa num None ns tp o H) as [_ [Hn [Hd _]]].
    rewrite Hn. apply Hd. reflexivity. }
  split; [|split; [|split]].
  - intros fa num ns tp o H. pose proof (Hdirs _ _ _ _ _ _ H) as Hd.
    split; [exact Hd|]. intros items b Hb. unfold Objective_evaluate in Hb.
    destruct (Objective_solutions _ _) as [a|e] eqn:Ea; simpl in Hb; [|discriminate].
    exists a. split; [reflexivity|].
    rewrite Hd in *. unfold py_repeat in *. rewrite repeat_length.
    apply (mul_directions_ones a b); [eapply Objective_solutions_wf; exact Ea|exact Hb].
  - intros fa num ns tp o H. pose proof (Hdirs _ _ _ _ _ _ H) as Hd.
    split; [exact Hd|]. intros items b Hb. unfold ElementWise_evaluate in Hb.
    destruct (ElementWise_solutions _ _) as [a|e] eqn:Ea; simpl in Hb; [|discriminate].
    exists a. split; [reflexivity|].
    rewrite Hd in *. unfold py_repeat in *. rewrite repeat_length.
    apply (mul_directions_ones a b); [eapply ElementWise_solutions_wf; exact Ea|exact Hb].
  - intros fa bsz num ns tp o H.
    assert (H' : Objective_init fa num None ns tp = Ok o).
    { unfold BatchObjective_init in H.
      destruct (Objective_init fa num None ns tp) as [o'|e]; simpl in H; [|discriminate].
      injection H as <-. reflexivity. }
    pose proof (Hdirs _ _ _ _ _ _ H') as Hd.
    split; [exact Hd|]. intros sched items b Hb.
    rewrite Batch_evaluate_split in Hb. simpl in Hb.
    destruct (snd (Batch_solutions _ _ _)) as [a|e] eqn:Ea; simpl in Hb; [|discriminate].
    exists a. split; [reflexivity|].
    rewrite Hd in *. unfold py_repeat in *. rewrite repeat_length.
    apply (mul_directions_ones a b); [eapply Batch_solutions_wf; exact Ea|exact Hb].
  - intros fa num ns tp o H. pose proof (Hdirs _ _ _ _ _ _ H) as Hd.
    split; [exact Hd|]. intros sched items b Hb.
    rewrite AsyncElementWise_evaluate_split in Hb. simpl in Hb.
    destruct (snd (AsyncElementWise_solutions _ _ _)) as [a|e] eqn:Ea; simpl in Hb;
      [|discriminate].
    exists a. split; [reflexivity|].
    rewrite Hd in *. unfold py_repeat in *. rewrite repeat_length.
    apply (mul_directions_ones a b); [eapply AsyncElementWise_solutions_wf; exact Ea|exact Hb].
Qed.

(** ** Dispatch of the task groups *)

Lemma async_evaluate_trace {A B : Type} sched k (f : afun A B) inputs j x :
  In (j, x) (fst (async_evaluate sched k f inputs)) -> j = k.
Proof.
  unfold async_evaluate. destruct (negb (is_coro f)); simpl; [intros []|].
  intros H. apply in_map_iff in H. destruct H as [y [E _]]. injection E as -> _. reflexivity.
Qed.

Lemma batch_groups_trace {X : Type} sched k0 (fs : list (afun (list X) ndarray)) bs j x :
  In (j, x) (fst (batch_groups sched k0 fs bs)) -> (k0 <= j)%nat.
Proof.
  revert k0. induction fs as [|f fs IH]; intros k0; simpl; [intros []|].
  destruct (negb (is_coro f)); [intros []|].
  destruct (async_evaluate sched k0 f bs) as [tr out] eqn:Ea.
  assert (Htr : forall j' x', In (j', x') tr -> j' = k0).
  { intros j' x' H. apply (async_evaluate_trace sched k0 f bs j' x'). rewrite Ea. exact H. }
  destruct out as [outs|e]; [|intros H; rewrite (Htr _ _ H); lia].
  destruct (np_concatenate outs) as [r|e]; [|intros H; rewrite (Htr _ _ H); lia].
  destruct (batch_groups sched (S k0) fs bs) as [tr' rest] eqn:Eb.
  simpl. intros H. apply in_app_or in H. destruct H as [H|H].
  - rewrite (Htr _ _ H). lia.
  - specialize (IH (S k0)). rewrite Eb in IH. simpl in IH. apply IH in H. lia.
Qed.

Lemma batch_groups_sync {X : Type} sched (fs : list (afun (list X) ndarray)) bs :
  forall k0 i f, nth_error fs i = Some f -> is_coro f = false ->
  (forall x, ~ In (k0 + i, x)%nat (fst (batch_groups sched k0 fs bs))) /\
  (forall m, snd (batch_groups sched k0 fs bs) <> Ok m) /\
  (forall rs, snd (batch_groups sched k0 (firstn i fs) bs) = Ok rs ->
              snd (batch_groups sched k0 fs bs) = Err ValueError).
Proof.
  induction fs as [|f0 fs IH]; intros k0 i f Hf Hsync; [destruct i; discriminate|].
  destruct i as [|i].
  - simpl in Hf. injection Hf as ->. simpl. rewrite Hsync. simpl.
    split; [intros x []|]. split; [discriminate|]. intros; reflexivity.
  - simpl in Hf. simpl.
    destruct (is_coro f0) eqn:Ec.
    2:{ simpl. split; [intros x []|]. split; [discriminate|].
      intros rs H. simpl in H. discriminate. }
    simpl negb. cbv iota.
    destruct (async_evaluate sched k0 f0 bs) as [tr out] eqn:Ea.
    assert (Htr : forall j' x', In (j', x') tr -> j' = k0).
    { intros j' x' H. apply (async_evaluate_trace sched k0 f0 bs j' x'). rewrite Ea. exact H. }
    destruct out as [outs|e].
    2:{ simpl. split; [intros x H; apply Htr in H; lia|]. split; [discriminate|].
        intros rs H. discriminate. }
    destruct (np_concatenate outs) as [r|e] eqn:En.
    2:{ simpl. split; [intros x H; apply Htr in H; lia|]. split; [discriminate|].
        intros rs H. discriminate. }
    destruct (IH (S k0) i f Hf Hsync) as [IH1 [IH2 IH3]].
    destruct (batch_groups sched (S k0) fs bs) as [tr' rest] eqn:Eb. simpl in *.
    split; [|split].
    + intros x H. apply in_app_or in H. destruct H as [H|H].
      * apply Htr in H. lia.
      * apply (IH1 x). replace (S (k0 + i)) with (k0 + S i)%nat by lia. exact H.
    + intros m. destruct rest as [rs|e]; simpl; [|discriminate].
      exfalso. apply (IH2 rs). reflexivity.
    + intros rs H.
      destruct (batch_groups sched (S k0) (firstn i fs) bs) as [tr2 [rs'|e2]] eqn:E2;
        simpl in H; [|discriminate].
      rewrite (IH3 rs'); [reflexivity|try rewrite E2; reflexivity].
Qed.

Lemma async_groups_trace {X : Type} sched k0 (fs : list (afun X pyval)) items j x :
  In (j, x) (fst (async_groups sched k0 fs items)) -> (k0 <= j)%nat.
Proof.
  revert k0. induction fs as [|f fs IH]; intros k0; simpl; [intros []|].
  destruct (async_evaluate sched k0 f items) as [tr out] eqn:Ea.
  assert (Htr : forall j' x', In (j', x') tr -> j' = k0).
  { intros j' x' H. apply (async_evaluate_trace sched k0 f items j' x'). rewrite Ea. exact H. }
  destruct out as [outs|e]; [|intros H; rewrite (Htr _ _ H); lia].
  destruct (np_array_vals outs) as [r|e]; [|intros H; rewrite (Htr _ _ H); lia].
  destruct (async_groups sched (S k0) fs items) as [tr' rest] eqn:Eb.
  simpl. intros H. apply in_app_or in H. destruct H as [H|H].
  - rewrite (Htr _ _ H). lia.
  - specialize (IH (S k0)). rewrite Eb in IH. simpl in IH. apply IH in H. lia.
Qed.

Lemma async_groups_sync {X : Type} sched (fs : list (afun X pyval)) items :
  forall k0 i f, nth_error fs i = Some f -> is_coro f = false ->
  (forall x, ~ In (k0 + i, x)%nat (fst (async_groups sched k0 fs items))) /\
  (forall m, snd (async_groups sched k0 fs items) <> Ok m) /\
  (forall rs, snd (async_groups sched k0 (firstn i fs) items) = Ok rs ->
              snd (async_groups sched k0 fs items) = Err ValueError).
Proof.
  induction fs as [|f0 fs IH]; intros k0 i f Hf Hsync; [destruct i; discriminate|].
  destruct i as [|i].
  - simpl in Hf. injection Hf as ->. simpl. unfold async_evaluate. rewrite Hsync. simpl.
    split; [intros x []|]. split; [discriminate|]. intros; reflexivity.
  - simpl in Hf. simpl.
    destruct (async_evaluate sched k0 f0 items) as [tr out] eqn:Ea.
    assert (Htr : forall j' x', In (j', x') tr -> j' = k0).
    { intros j' x' H. apply (async_evaluate_trace sched k0 f0 items j' x'). rewrite Ea. exact H. }
    destruct out as [outs|e].
    2:{ simpl. split; [intros x H; apply Htr in H; lia|]. split; [discriminate|].
        intros rs H. discriminate. }
    destruct (np_array_vals outs) as [r|e] eqn:En.
    2:{ simpl. split; [intros x H; apply Htr in H; lia|]. split; [discriminate|].
        intros rs H. discriminate. }
    destruct (IH (S k0) i f Hf Hsync) as [IH1 [IH2 IH3]].
    destruct (async_groups sched (S k0) fs items) as [tr' rest] eqn:Eb. simpl in *.
    split; [|split].
    + intros x H. apply in_app_or in H. destruct H as [H|H].
      * apply Htr in H. lia.
      * apply (IH1 x). replace (S (k0 + i)) with (k0 + S i)%nat by lia. exact H.
    + intros m. destruct rest as [rs|e]; simpl; [|discriminate].
      exfalso. apply (IH2 rs). reflexivity.
    + intros rs H.
      destruct (async_groups sched (S k0) (firstn i fs) items) as [tr2 [rs'|e2]] eqn:E2;
        simpl in H; [|discriminate].
      rewrite (IH3 rs'); [reflexivity|try rewrite E2; reflexivity].
Qed.

(** ** C6: synchronous functions in the asynchronous variants *)

(** C6. In [BatchObjective] and [AsyncElementWiseObjective], an objective
    function [f] (the [k]-th) that is not a coroutine function is never
    dispatched: no task of it appears among the dispatched tasks, the
    evaluation returns no matrix, and once the groups of the functions
    before it have completed, the evaluation raises [ValueError]. *)
Theorem sync_function_not_dispatched {X : Type} :
  (forall sched (bo : batch_objective (afun (list X) ndarray)) items k f,
     nth_error (objective_functions (batch_base bo)) k = Some f -> is_coro f = false ->
     (forall x, ~ In (k, x) (fst (Batch_evaluate sched bo items))) /\
     (forall m, snd (Batch_evaluate sched bo items) <> Ok m) /\
     (forall bs rs, make_batches items (batch_size bo) = Ok bs ->
        snd (batch_groups sched 0 (firstn k (objective_functions (batch_base bo))) bs) = Ok rs ->
        snd (Batch_evaluate sched bo items) = Err ValueError)) /\
  (forall sched (o : objective (afun X pyval)) items k f,
     nth_error (objective_functions o) k = Some f -> is_coro f = false ->
     (forall x, ~ In (k, x) (fst (AsyncElementWise_evaluate sched o items))) /\
     (forall m, snd (AsyncElementWise_evaluate sched o items) <> Ok m) /\
     (forall rs, snd (async_groups sched 0 (firstn k (objective_functions o)) items) = Ok rs ->
        snd (AsyncElementWise_evaluate sched o items) = Err ValueError)).
Proof.
  split.
  - intros sched bo items k f Hf Hs.
    rewrite Batch_evaluate_split. simpl. unfold Batch_solutions.
    destruct (make_batches items (batch_size bo)) as [bs|e] eqn:Eb.
    2:{ simpl. split; [intros x []|]. split; [discriminate|]. intros bs rs E. discriminate. }
    destruct (batch_groups_sync sched _ bs 0 k f Hf Hs) as [H1 [H2 H3]].
    destruct (batch_groups sched 0 (objective_functions (batch_base bo)) bs) as [tr res]
      eqn:Eg.
    simpl in *. split; [|split].
    + exact H1.
    + intros m. destruct res as [rs|e]; [exfalso; apply (H2 rs); reflexivity|].
      discriminate.
    + intros bs' rs E Hpre. injection E as <-. rewrite (H3 rs Hpre). reflexivity.
  - intros sched o items k f Hf Hs.
    rewrite AsyncElementWise_evaluate_split. simpl. unfold AsyncElementWise_solutions.
    destruct (async_groups_sync sched _ items 0 k f Hf Hs) as [H1 [H2 H3]].
    destruct (async_groups sched 0 (objective_functions o) items) as [tr res] eqn:Eg.
    simpl in *. split; [|split].
    + exact H1.
    + intros m. destruct res as [rs|e]; [exfalso; apply (H2 rs); reflexivity|].
      discriminate.
    + intros rs Hpre. rewrite (H3 rs Hpre). reflexivity.
Qed.

(** ** Exceptions of the user functions *)

Lemma map_py_err {A B : Type} (f : A -> result B) (xs : list A) (i : nat) (x : A) (e : exc) :
  (forall j y, (j < i)%nat -> nth_error xs j = Some y -> exists b, f y = Ok b) ->
  nth_error xs i = Some x -> f x = Err e -> map_py f xs = Err e.
Proof.
  revert i. induction xs as [|y xs IH]; intros i Hpre Hx Hf; [destruct i; discriminate|].
  destruct i as [|i].
  - simpl in Hx. injection Hx as ->. simpl. rewrite Hf. reflexivity.
  - simpl. destruct (Hpre 0%nat y ltac:(lia) eq_refl) as [b Hb]. rewrite Hb. simpl.
    rewrite (IH i); [reflexivity| |exact Hx|exact Hf].
    intros j z Hj Hz. apply (Hpre (S j) z); [lia|exact Hz].
Qed.

Lemma map_py_ok_inv {A B : Type} (f : A -> result B) (xs : list A) (ys : list B) :
  map_py f xs = Ok ys -> forall x, In x xs -> exists b, f x = Ok b.
Proof.
  revert ys. induction xs as [|x0 xs IH]; intros ys H x Hx; [destruct Hx|].
  simpl in H. destruct (f x0) as [b|e] eqn:Ef; simpl in H; [|discriminate].
  destruct (map_py f xs) as [ys'|e] eqn:Er; simpl in H; [|discriminate].
  destruct Hx as [<-|Hx]; [exists b; exact Ef|]. apply (IH ys' eq_refl x Hx).
Qed.

Lemma first_failure_in {B : Type} (order : list nat) (outs : list (result B)) (e : exc) :
  first_failure order outs = Some e -> In (Err e) outs.
Proof.
  induction order as [|i order IH]; simpl; [discriminate|].
  destruct (nth_error outs i) as [[b|e']|] eqn:E; try exact IH.
  intros H. injection H as ->. apply nth_error_In with (n := i). exact E.
Qed.

Lemma all_ok_err {B : Type} (outs : list (result B)) :
  (forall bs, all_ok outs = Ok bs -> forall o, In o outs -> exists b, o = Ok b) /\
  (forall e, all_ok outs = Err e -> In (Err e) outs).
Proof.
  induction outs as [|o outs [IH1 IH2]]; simpl.
  - split; [intros _ _ _ []|intros e H; discriminate].
  - destruct o as [b|e0]; simpl.
    + destruct (all_ok outs) as [bs'|e'] eqn:E; simpl.
      * split; [|intros e H; discriminate]. intros bs _ o [<-|Ho]; [exists b; reflexivity|].
        exact (IH1 bs' eq_refl o Ho).
      * split; [intros bs H; discriminate|]. intros e H. injection H as <-. right. apply IH2. reflexivity.
    + split; [intros bs H; discriminate|]. intros e H. injection H as <-. left. reflexivity.
Qed.

(** [asyncio.gather]: all or nothing. The joint wait yields values only when
    every task does, and a failure is the exception of one of the tasks. *)
Lemma gather_result {A B : Type} (order : list nat) (call : A -> result B) (inputs : list A) :
  (forall bs, gather order (map call inputs) = Ok bs -> map_py call inputs = Ok bs) /\
  (forall e, gather order (map call inputs) = Err e -> exists x, In x inputs /\ call x = Err e).
Proof.
  assert (Hin : forall e, In (Err e) (map call inputs) -> exists x, In x inputs /\ call x = Err e).
  { intros e H. apply in_map_iff in H. destruct H as [x [Hx Hin]]. exists x. auto. }
  unfold gather. destruct (first_failure order (map call inputs)) as [e|] eqn:Ef.
  - split; [intros bs H; discriminate|]. intros e' H. injection H as <-.
    apply Hin, (first_failure_in order). exact Ef.
  - destruct (all_ok_err (map call inputs)) as [H1 H2]. split.
    + intros bs H. clear -H. revert bs H. induction inputs as [|x xs IH]; intros bs H; simpl in *.
      * exact H.
      * destruct (call x); simpl in *; [|discriminate].
        destruct (all_ok (map call xs)) as [bs'|e'] eqn:E; simpl in *; [|discriminate].
        rewrite (IH bs' eq_refl). exact H.
    + intros e H. apply Hin, H2, H.
Qed.

Lemma gather_fails {A B : Type} (order : list nat) (call : A -> result B) (inputs : list A) :
  (exists x e, In x inputs /\ call x = Err e) ->
  exists e', gather order (map call inputs) = Err e' /\ exists x, In x inputs /\ call x = Err e'.
Proof.
  intros [x [e [Hx He]]].
  destruct (gather order (map call inputs)) as [bs|e'] eqn:Eg.
  - exfalso. destruct (gather_result order call inputs) as [H1 _].
    destruct (map_py_ok_inv call inputs bs (H1 bs Eg) x Hx) as [b Hb]. congruence.
  - exists e'. split; [reflexivity|]. apply (proj2 (gather_result order call inputs)), Eg.
Qed.

Lemma batch_groups_fail {X : Type} sched (fs : list (afun (list X) ndarray)) bs :
  forall k0 i f rs, nth_error fs i = Some f -> is_coro f = true ->
  snd (batch_groups sched k0 (firstn i fs) bs) = Ok rs ->
  (exists b e, In b bs /\ acall f b = Err e) ->
  exists e', snd (batch_groups sched k0 fs bs) = Err e' /\
             exists b, In b bs /\ acall f b = Err e'.
Proof.
  induction fs as [|f0 fs IH]; intros k0 i f rs Hf Hc Hpre Hex; [destruct i; discriminate|].
  destruct i as [|i].
  - simpl in Hf. injection Hf as ->.
    destruct (gather_fails (sched k0 (length bs)) (acall f) bs Hex) as [e' [Eg Hx]].
    exists e'. split; [|exact Hx].
    simpl. rewrite Hc. unfold async_evaluate. rewrite Hc. simpl. rewrite Eg. reflexivity.
  - simpl in Hf. simpl in Hpre |- *.
    destruct (is_coro f0) eqn:Ec; simpl in Hpre |- *; [|discriminate].
    unfold async_evaluate in Hpre |- *. rewrite Ec in Hpre |- *. simpl in Hpre |- *.
    destruct (gather (sched k0 (length bs)) (map (acall f0) bs)) as [outs|e]; [|discriminate].
    destruct (np_concatenate outs) as [r|e]; [|discriminate].
    destruct (batch_groups sched (S k0) (firstn i fs) bs) as [tr2 [rs'|e2]] eqn:E2;
      simpl in Hpre; [|discriminate].
    destruct (IH (S k0) i f rs' Hf Hc) as [e' [He' Hx]]; [rewrite E2; reflexivity|exact Hex|].
    exists e'. split; [|exact Hx].
    destruct (batch_groups sched (S k0) fs bs) as [tr' rest]. simpl in He' |- *.
    rewrite He'. reflexivity.
Qed.

Lemma async_groups_fail {X : Type} sched (fs : list (afun X pyval)) items :
  forall k0 i f rs, nth_error fs i = Some f -> is_coro f = true ->
  snd (async_groups sched k0 (firstn i fs) items) = Ok rs ->
  (exists x e, In x items /\ acall f x = Err e) ->
  exists e', snd (async_groups sched k0 fs items) = Err e' /\
             exists x, In x items /\ acall f x = Err e'.
Proof.
  induction fs as [|f0 fs IH]; intros k0 i f rs Hf Hc Hpre Hex; [destruct i; discriminate|].
  destruct i as [|i].
  - simpl in Hf. injection Hf as ->.
    destruct (gather_fails (sched k0 (length items)) (acall f) items Hex) as [e' [Eg Hx]].
    exists e'. split; [|exact Hx].
    simpl. unfold async_evaluate. rewrite Hc. simpl. rewrite Eg. reflexivity.
  - simpl in Hf. simpl in Hpre |- *.
    unfold async_evaluate in Hpre |- *.
    destruct (is_coro f0) eqn:Ec; simpl in Hpre |- *; [|discriminate].
    destruct (gather (sched k0 (length items)) (map (acall f0) items)) as [outs|e];
      [|discriminate].
    destruct (np_array_vals outs) as [r|e]; [|discriminate].
    destruct (async_groups sched (S k0) (firstn i fs) items) as [tr2 [rs'|e2]] eqn:E2;
      simpl in Hpre; [|discriminate].
    destruct (IH (S k0) i f rs' Hf Hc) as [e' [He' Hx]]; [rewrite E2; reflexivity|exact Hex|].
    exists e'. split; [|exact Hx].
    destruct (async_groups sched (S k0) fs items) as [tr' rest]. simpl in He' |- *.
    rewrite He'. reflexivity.
Qed.

(** ** C5: exceptions of user functions *)

(** C5. In every variant an exception raised by a user function reaches the
    caller as it was raised and no matrix is returned. For the sequential
    variants it is the exception of the first failing call; for the
    concurrent variants, once the groups of the earlier functions have
    completed, a group with a failing task fails as a whole with the
    exception of one of its tasks, keeping none of its results. *)
Theorem user_exception_propagates {X : Type} :
  (forall (o : objective (vfun X)) items k f e,
     (forall j g, (j < k)%nat -> nth_error (objective_functions o) j = Some g ->
                  exists r, g items = Ok r) ->
     nth_error (objective_functions o) k = Some f -> f items = Err e ->
     Objective_evaluate o items = Err e) /\
  (forall (o : objective (efun X)) items k f i x e,
     (forall j g, (j < k)%nat -> nth_error (objective_functions o) j = Some g ->
                  exists r, map_py g items = Ok r) ->
     nth_error (objective_functions o) k = Some f ->
     (forall j y, (j < i)%nat -> nth_error items j = Some y -> exists v, f y = Ok v) ->
     nth_error items i = Some x -> f x = Err e ->
     ElementWise_evaluate o items = Err e) /\
  (forall sched (bo : batch_objective (afun (list X) ndarray)) items bs rs k f,
     make_batches items (batch_size bo) = Ok bs ->
     snd (batch_groups sched 0 (firstn k (objective_functions (batch_base bo))) bs) = Ok rs ->
     nth_error (objective_functions (batch_base bo)) k = Some f -> is_coro f = true ->
     (exists b e, In b bs /\ acall f b = Err e) ->
     exists e', snd (Batch_evaluate sched bo items) = Err e' /\
                exists b, In b bs /\ acall f b = Err e') /\
  (forall sched (o : objective (afun X pyval)) items rs k f,
     snd (async_groups sched 0 (firstn k (objective_functions o)) items) = Ok rs ->
     nth_error (objective_functions o) k = Some f -> is_coro f = true ->
     (exists x e, In x items /\ acall f x = Err e) ->
     exists e', snd (AsyncElementWise_evaluate sched o items) = Err e' /\
                exists x, In x items /\ acall f x = Err e').
Proof.
  split; [|split; [|split]].
  - intros o items k f e Hpre Hf He.
    unfold Objective_evaluate, Objective_solutions.
    rewrite (map_py_err (fun g => g items) _ k f e Hpre Hf He). reflexivity.
  - intros o items k f i x e Hpre Hf Hipre Hx He.
    unfold ElementWise_evaluate, ElementWise_solutions.
    rewrite (map_py_err (fun g => map_py g items) _ k f e Hpre Hf); [reflexivity|].
    apply (map_py_err f items i x e Hipre Hx He).
  - intros sched bo items bs rs k f Hb Hpre Hf Hc Hex.
    destruct (batch_groups_fail sched _ bs 0 k f rs Hf Hc Hpre Hex) as [e' [He' Hx]].
    exists e'. split; [|exact Hx].
    rewrite Batch_evaluate_split. simpl. unfold Batch_solutions. rewrite Hb.
    destruct (batch_groups sched 0 (objective_functions (batch_base bo)) bs) as [tr res].
    simpl in He' |- *. rewrite He'. reflexivity.
  - intros sched o items rs k f Hpre Hf Hc Hex.
    destruct (async_groups_fail sched _ items 0 k f rs Hf Hc Hpre Hex) as [e' [He' Hx]].
    exists e'. split; [|exact Hx].
    rewrite AsyncElementWise_evaluate_split. simpl. unfold AsyncElementWise_solutions.
    destruct (async_groups sched 0 (objective_functions o) items) as [tr res].
    simpl in He' |- *.
    rewrite He'. reflexivity.
Qed.

(** ** Rows of the element-wise stack *)

Lemma all_some_map {A : Type} (l : list (option A)) (l' : list A) :
  all_some l = Some l' -> l = map Some l'.
Proof.
  revert l'. induction l as [|x l IH]; intros l' H; simpl in H.
  - injection H as <-. reflexivity.
  - destruct x as [a|]; [|discriminate].
    destruct (all_some l) as [r|] eqn:E; [|discriminate].
    injection H as <-. simpl. rewrite (IH r eq_refl). reflexivity.
Qed.

Lemma map_scalar_of (vals : list pyval) (zs : list Z) :
  map scalar_of vals = map Some zs -> vals = map Scalar zs.
Proof.
  revert zs. induction vals as [|[z|v] vals IH]; intros [|z' zs] H; simpl in H;
    try discriminate; [reflexivity|].
  injection H as -> H. simpl. rewrite (IH zs H). reflexivity.
Qed.

Lemma map_vector_of (vals : list pyval) (vs : list (list Z)) :
  map vector_of vals = map Some vs -> vals = map Vector vs.
Proof.
  revert vs. induction vals as [|[z|v] vals IH]; intros [|v' vs] H; simpl in H;
    try discriminate; [reflexivity|].
  injection H as -> H. simpl. rewrite (IH vs H). reflexivity.
Qed.

Lemma map_nth_seq {A : Type} (l : list A) (d : A) :
  map (fun i => nth i l d) (seq 0 (length l)) = l.
Proof.
  induction l as [|x l IH]; [reflexivity|].
  simpl. rewrite <- seq_shift, map_map. simpl. f_equal. exact IH.
Qed.

Lemma nth_column (i j : nat) (rows : list (list Z)) :
  nth i (column j rows) 0%Z = nth j (nth i rows []) 0%Z.
Proof.
  unfold column. revert i.
  induction rows as [|r rows IH]; intros [|i]; simpl; try (destruct j; reflexivity).
  apply IH.
Qed.

Lemma np_array_vals_columns (vals : list pyval) (a : ndarray) :
  np_array_vals vals = Ok a -> vals <> [] ->
  Forall (fun c => length c = length vals) (ew_columns a) /\
  (forall i, (i < length vals)%nat ->
     map (fun c => nth i c 0%Z) (ew_columns a) = pyval_values (nth i vals (Scalar 0))).
Proof.
  intros H Hne. destruct vals as [|v0 vals']; [contradiction|]. unfold np_array_vals in H.
  destruct (all_some (map scalar_of (v0 :: vals'))) as [zs|] eqn:Es.
  - injection H as <-. apply all_some_map, map_scalar_of in Es. rewrite Es.
    simpl. split.
    + constructor; [|constructor]. rewrite length_map. reflexivity.
    + intros i Hi. rewrite length_map in Hi.
      rewrite (map_nth Scalar zs 0%Z i). reflexivity.
  - destruct (all_some (map vector_of (v0 :: vals'))) as [vs|] eqn:Ev; [|discriminate].
    destruct (forallb _ vs) eqn:Ef; [|discriminate].
    injection H as <-. apply all_some_map, map_vector_of in Ev. rewrite Ev.
    set (k := match v0 with Vector v => length v | Scalar _ => 0%nat end) in *.
    simpl. split.
    + apply Forall_forall. intros c Hc. apply in_map_iff in Hc.
      destruct Hc as [j [<- _]]. unfold column. rewrite !length_map. reflexivity.
    + intros i Hi. rewrite length_map in Hi.
      rewrite map_map.
      rewrite (map_ext (fun j => nth i (column j vs) 0%Z) (fun j => nth j (nth i vs []) 0%Z))
        by (intros j; apply nth_column).
      rewrite (nth_indep _ (Scalar 0) (Vector [])) by (rewrite length_map; exact Hi).
      rewrite (map_nth Vector vs [] i). simpl.
      assert (Hk : length (nth i vs []) = k).
      { apply Nat.eqb_eq. apply (proj1 (forallb_forall _ vs) Ef). apply nth_In. exact Hi. }
      rewrite <- Hk. apply map_nth_seq.
Qed.

Lemma map_py_Forall2 {A B : Type} (f : A -> result B) (xs : list A) (ys : list B) :
  map_py f xs = Ok ys -> Forall2 (fun x y => f x = Ok y) xs ys.
Proof.
  revert ys. induction xs as [|x xs IH]; intros ys H; simpl in H.
  - injection H as <-. constructor.
  - destruct (f x) as [y|e] eqn:Ef; simpl in H; [|discriminate].
    destruct (map_py f xs) as [ys'|e] eqn:Er; simpl in H; [|discriminate].
    injection H as <-. constructor; [exact Ef|]. apply IH. reflexivity.
Qed.

Lemma ew_columns_rows (res : list (list pyval)) (arrs : list ndarray) (N : nat) :
  Forall2 (fun r a => np_array_vals r = Ok a) res arrs ->
  Forall (fun r => length r = N) res -> (0 < N)%nat ->
  Forall (fun c => length c = N) (flat_map ew_columns arrs) /\
  (forall i, (i < N)%nat ->
     map (fun c => nth i c 0%Z) (flat_map ew_columns arrs) = raw_row res i).
Proof.
  intros H2 HN HN0. induction H2 as [|r a res arrs Hra H2 IH]; simpl.
  - split; [constructor|]. intros i _. reflexivity.
  - inversion HN as [|r' res' Hr HN']; subst.
    destruct IH as [IH1 IH2]; [exact HN'|].
    assert (Hne : r <> []) by (intros ->; simpl in HN0; lia).
    destruct (np_array_vals_columns r a Hra Hne) as [C1 C2].
    split.
    + apply Forall_app. split; [exact C1|exact IH1].
    + intros i Hi. unfold raw_row. simpl. rewrite map_app, C2 by exact Hi.
      f_equal. apply IH2. exact Hi.
Qed.

Lemma ew_stack_rows (res : list (list pyval)) (arrs : list ndarray) (N : nat) (s : ndarray) :
  Forall2 (fun r a => np_array_vals r = Ok a) res arrs ->
  Forall (fun r => length r = N) res -> (0 < N)%nat ->
  ew_stack arrs = Ok s ->
  (exists w, s = A2 w (map (raw_row res) (seq 0 N))) \/
  (s = A1 [] /\ forall i, (i < N)%nat -> raw_row res i = []).
Proof.
  intros H2 HN HN0 Hs.
  destruct (ew_columns_rows res arrs N H2 HN HN0) as [C1 C2].
  unfold ew_stack in Hs.
  destruct (flat_map ew_columns arrs) as [|c0 cols] eqn:Ec.
  - simpl in Hs. injection Hs as <-. right. split; [reflexivity|].
    intros i Hi. rewrite <- (C2 i Hi). reflexivity.
  - left. simpl in Hs.
    pose proof (Forall_inv C1) as Hc0. simpl in Hc0.
    assert (Hall : forallb (fun s => Nat.eqb (length s) (length c0)) (c0 :: cols) = true).
    { apply forallb_forall. intros c Hc. apply Nat.eqb_eq.
      rewrite (proj1 (Forall_forall _ _) C1 c Hc). symmetry. exact Hc0. }
    simpl in Hall. rewrite Hall in Hs. simpl in Hs. injection Hs as <-.
    exists (length (c0 :: cols)). simpl. f_equal. rewrite Hc0.
    apply map_ext_in. intros i Hi. apply in_seq in Hi.
    rewrite <- (C2 i) by lia. reflexivity.
Qed.

Lemma map_py_length {A B : Type} (f : A -> result B) (xs : list A) (ys : list B) :
  map_py f xs = Ok ys -> length ys = length xs.
Proof.
  intros H. apply map_py_Forall2 in H. symmetry. eapply Forall2_length. exact H.
Qed.

Lemma ElementWise_solutions_rows {X : Type} (fs : list (efun X)) (items : list X) (a : ndarray) :
  ElementWise_solutions fs items = Ok a -> items <> [] ->
  exists res, map_py (fun f => map_py f items) fs = Ok res /\
    ((exists w, a = A2 w (map (raw_row res) (seq 0 (length items)))) \/
     (a = A1 [] /\ forall i, (i < length items)%nat -> raw_row res i = [])).
Proof.
  intros H Hne. unfold ElementWise_solutions in H.
  destruct (map_py (fun f => map_py f items) fs) as [res|e] eqn:Eres; simpl in H;
    [|discriminate].
  destruct (map_py np_array_vals res) as [arrs|e] eqn:Earrs; simpl in H; [|discriminate].
  exists res. split; [reflexivity|].
  apply (ew_stack_rows res arrs (length items) a).
  - apply map_py_Forall2. exact Earrs.
  - apply map_py_Forall2 in Eres. clear -Eres. induction Eres; constructor; [|assumption].
    eapply map_py_length. eassumption.
  - destruct items; [contradiction|simpl; lia].
  - exact H.
Qed.

Lemma async_groups_ok {X : Type} sched k0 (fs : list (afun X pyval)) items arrs :
  snd (async_groups sched k0 fs items) = Ok arrs ->
  exists res, Forall2 (fun f r => is_coro f = true /\ map_py (acall f) items = Ok r) fs res /\
              Forall2 (fun r a => np_array_vals r = Ok a) res arrs.
Proof.
  revert k0 arrs. induction fs as [|f fs IH]; intros k0 arrs H; simpl in H.
  - injection H as <-. exists []. split; constructor.
  - unfold async_evaluate in H. destruct (is_coro f) eqn:Ec; simpl in H; [|discriminate].
    destruct (gather (sched k0 (length items)) (map (acall f) items)) as [outs|e] eqn:Eg;
      [|discriminate].
    destruct (np_array_vals outs) as [r|e] eqn:Ev; [|discriminate].
    destruct (async_groups sched (S k0) fs items) as [tr' rest] eqn:Eb.
    simpl in H. destruct rest as [rs|e]; simpl in H; [|discriminate].
    injection H as <-.
    destruct (IH (S k0) rs) as [res [R1 R2]]; [rewrite Eb; reflexivity|].
    exists (outs :: res). split; constructor; auto.
    split; [exact Ec|]. apply (proj1 (gather_result (sched k0 (length items)) (acall f) items)). exact Eg.
Qed.

Lemma AsyncElementWise_solutions_rows {X : Type} sched (o : objective (afun X pyval)) items a :
  snd (AsyncElementWise_solutions sched o items) = Ok a -> items <> [] ->
  exists res, Forall2 (fun f r => is_coro f = true /\ map_py (acall f) items = Ok r)
                      (objective_functions o) res /\
    ((exists w, a = A2 w (map (raw_row res) (seq 0 (length items)))) \/
     (a = A1 [] /\ forall i, (i < length items)%nat -> raw_row res i = [])).
Proof.
  intros H Hne. unfold AsyncElementWise_solutions in H.
  destruct (async_groups sched 0 (objective_functions o) items) as [tr res0] eqn:Eg.
  simpl in H. destruct res0 as [arrs|e]; simpl in H; [|discriminate].
  destruct (async_groups_ok sched 0 (objective_functions o) items arrs) as [res [R1 R2]];
    [rewrite Eg; reflexivity|].
  exists res. split; [exact R1|].
  apply (ew_stack_rows res arrs (length items) a).
  - exact R2.
  - clear -R1. induction R1 as [|f r fs res [_ Hr] R1 IH]; constructor; [|assumption].
    eapply map_py_length. eassumption.
  - destruct items; [contradiction|simpl; lia].
  - exact H.
Qed.

Lemma batch_groups_ok {X : Type} sched k0 (fs : list (afun (list X) ndarray)) bs rs :
  snd (batch_groups sched k0 fs bs) = Ok rs ->
  Forall2 (fun f r => is_coro f = true /\
             exists outs, map_py (acall f) bs = Ok outs /\ np_concatenate outs = Ok r) fs rs.
Proof.
  revert k0 rs. induction fs as [|f fs IH]; intros k0 rs H; simpl in H.
  - injection H as <-. constructor.
  - destruct (is_coro f) eqn:Ec; simpl in H; [|discriminate].
    unfold async_evaluate in H. rewrite Ec in H. simpl in H.
    destruct (gather (sched k0 (length bs)) (map (acall f) bs)) as [outs|e] eqn:Eg;
      [|discriminate].
    destruct (np_concatenate outs) as [r|e] eqn:Ev; [|discriminate].
    destruct (batch_groups sched (S k0) fs bs) as [tr' rest] eqn:Eb.
    simpl in H. destruct rest as [rs'|e]; simpl in H; [|discriminate].
    injection H as <-. constructor.
    + split; [exact Ec|]. exists outs. split; [|exact Ev].
      apply (proj1 (gather_result (sched k0 (length bs)) (acall f) bs)). exact Eg.
    + apply (IH (S k0)). rewrite Eb. reflexivity.
Qed.

Lemma Batch_solutions_rows {X : Type} sched (bo : batch_objective (afun (list X) ndarray)) items a :
  snd (Batch_solutions sched bo items) = Ok a ->
  exists bs rs, make_batches items (batch_size bo) = Ok bs /\
    Forall2 (fun f r => is_coro f = true /\
               exists outs, map_py (acall f) bs = Ok outs /\ np_concatenate outs = Ok r)
            (objective_functions (batch_base bo)) rs /\
    np_array_rows (flat_map rows_of rs) = Ok a.
Proof.
  intros H. unfold Batch_solutions in H.
  destruct (make_batches items (batch_size bo)) as [bs|e]; simpl in H; [|discriminate].
  destruct (batch_groups sched 0 (objective_functions (batch_base bo)) bs) as [tr res] eqn:Eg.
  simpl in H. destruct res as [rs|e]; simpl in H; [|discriminate].
  exists bs, rs. split; [reflexivity|]. split; [|exact H].
  apply (batch_groups_ok sched 0). rewrite Eg. reflexivity.
Qed.

Lemma np_array_rows_ok (sols : list (list Z)) (a : ndarray) :
  np_array_rows sols = Ok a -> sols <> [] -> exists w, a = A2 w sols.
Proof.
  unfold np_array_rows. destruct sols as [|r rs]; [intros _ []; reflexivity|].
  destruct (forallb _ _); intros H _; [|discriminate].
  injection H as <-. eexists. reflexivity.
Qed.

Lemma mul_directions_A2 (w : nat) (rows : list (list Z)) (ds : list Z) (b : ndarray) :
  mul_directions (A2 w rows) ds = Ok b ->
  exists w', b = A2 w' (map (fun r => mul_row r ds) rows).
Proof.
  simpl. destruct (broadcast_width w (length ds)) as [w'|]; intros H; [|discriminate].
  injection H as <-. exists w'. reflexivity.
Qed.

(** ** C1: rows of the fitness matrix *)

(** X13. The element-wise variants ([ElementWiseObjective],
    [AsyncElementWiseObjective]) return, for N >= 1 candidates, a matrix of
    exactly N rows whose row i is the values of all the functions on
    candidate i, in the order of the functions, times [directions] (unless
    no function yields any value at all, when every raw row is empty). *)
Theorem elementwise_rows {X : Type} :
  (forall (o : objective (efun X)) items b,
     ElementWise_evaluate o items = Ok b -> items <> [] ->
     exists res, map_py (fun f => map_py f items) (objective_functions o) = Ok res /\
       ((exists w, b = A2 w (map (fun i => mul_row (raw_row res i) (directions o))
                                 (seq 0 (length items)))) \/
        (forall i, (i < length items)%nat -> raw_row res i = []))) /\
  (forall sched (o : objective (afun X pyval)) items b,
     snd (AsyncElementWise_evaluate sched o items) = Ok b -> items <> [] ->
     exists res, Forall2 (fun f r => is_coro f = true /\ map_py (acall f) items = Ok r)
                         (objective_functions o) res /\
       ((exists w, b = A2 w (map (fun i => mul_row (raw_row res i) (directions o))
                                 (seq 0 (length items)))) \/
        (forall i, (i < length items)%nat -> raw_row res i = []))).
Proof.
  split.
  - intros o items b H Hne. unfold ElementWise_evaluate in H.
    destruct (ElementWise_solutions (objective_functions o) items) as [a|e] eqn:Ea;
      simpl in H; [|discriminate].
    destruct (ElementWise_solutions_rows _ _ a Ea Hne) as [res [Hres Hrows]].
    exists res. split; [exact Hres|].
    destruct Hrows as [[w ->]|[-> Hempty]]; [left|right; exact Hempty].
    destruct (mul_directions_A2 _ _ _ b H) as [w' ->]. exists w'. rewrite map_map. reflexivity.
  - intros sched o items b H Hne. rewrite AsyncElementWise_evaluate_split in H. simpl in H.
    destruct (snd (AsyncElementWise_solutions sched o items)) as [a|e] eqn:Ea;
      simpl in H; [|discriminate].
    destruct (AsyncElementWise_solutions_rows sched o items a Ea Hne) as [res [Hres Hrows]].
    exists res. split; [exact Hres|].
    destruct Hrows as [[w ->]|[-> Hempty]]; [left|right; exact Hempty].
    destruct (mul_directions_A2 _ _ _ b H) as [w' ->]. exists w'. rewrite map_map. reflexivity.
Qed.

(** C1 (code bug). [Objective.evaluate] and [BatchObjective.evaluate]
    stack a flat per-candidate result as one row and apply no [.T] before
    [* self.directions], where their siblings [ElementWiseObjective] and
    [AsyncElementWiseObjective] transpose. With the square function on the
    three candidates [1; 2; 3], the vectorized [Objective] and
    [BatchObjective] (batches of two) return a matrix of one row and three
    columns, while [ElementWiseObjective] returns the three rows the claim
    asks for. *)
Lemma evaluate_rows_vectorized_flat :
  let F : vfun Z := fun ps => Ok (A1 (map (fun p => p * p)%Z ps)) in
  let f : efun Z := fun p => Ok (Scalar (p * p)%Z) in
  exists o bo oe,
    Objective_init (FunList [F]) None None None None = Ok o /\
    BatchObjective_init (FunList [mkAfun true F]) (Some 2%Z) None None None None = Ok bo /\
    Objective_init (FunList [f]) None None None None = Ok oe /\
    Objective_evaluate o [1; 2; 3]%Z = Ok (A2 3 [[1; 4; 9]%Z]) /\
    snd (Batch_evaluate (fun _ n => seq 0 n) bo [1; 2; 3]%Z) = Ok (A2 3 [[1; 4; 9]%Z]) /\
    ElementWise_evaluate oe [1; 2; 3]%Z = Ok (A2 1 [[1]; [4]; [9]]%Z) /\
    shape (A2 3 [[1; 4; 9]%Z]) = [1%nat; 3%nat] /\
    shape (A2 3 [[1; 4; 9]%Z]) <> [length [1; 2; 3]%Z; Z.to_nat (num_objectives o)] /\
    shape (A2 1 [[1]; [4]; [9]]%Z) = [length [1; 2; 3]%Z; Z.to_nat (num_objectives oe)].
Proof.
  intros F f. do 3 eexists. split; [reflexivity|]. split; [reflexivity|].
  split; [reflexivity|]. split; [reflexivity|]. split; [vm_compute; reflexivity|].
  split; [reflexivity|]. split; [reflexivity|]. split; [simpl; discriminate|reflexivity].
Qed.

(** ** C2: the signs of [directions] *)

Lemma parse_directions_map (ds : list string) (dirs : list Z) :
  parse_directions ds = Ok dirs ->
  Forall (fun t => t = "minimize"%string \/ t = "maximize"%string) ds /\
  dirs = map (fun t => if String.eqb t "minimize" then 1%Z else (-1)%Z) ds.
Proof.
  revert dirs. induction ds as [|d ds IH]; intros dirs H; simpl in H.
  - injection H as <-. split; [constructor|reflexivity].
  - destruct (parse_directions ds) as [r|e] eqn:Er.
    2: destruct (orb _ _); discriminate.
    destruct (IH r eq_refl) as [Hf Hr].
    destruct (String.eqb d "minimize") eqn:E1; destruct (String.eqb d "maximize") eqn:E2;
      simpl in H; try discriminate; injection H as <-; simpl; rewrite E1, <- Hr;
      (split; [|reflexivity]); constructor; try exact Hf;
      [left|left|right]; apply String.eqb_eq; assumption.
Qed.

Lemma mul_pointwise_nth (row ds : list Z) (j : nat) :
  length row = length ds ->
  nth j (mul_pointwise row ds) 0%Z = (nth j row 0 * nth j ds 0)%Z.
Proof.
  revert ds j. induction row as [|x row IH]; intros [|d ds] j Hl; simpl in Hl;
    try discriminate.
  - destruct j; reflexivity.
  - destruct j; simpl; [reflexivity|]. apply IH. lia.
Qed.

Lemma mul_row_nth (row ds : list Z) (j : nat) :
  length row = length ds ->
  nth j (mul_row row ds) 0%Z = (nth j row 0 * nth j ds 0)%Z.
Proof.
  intros Hl. unfold mul_row. rewrite Hl, Nat.eqb_refl. apply mul_pointwise_nth. exact Hl.
Qed.

Lemma nth_map_seq0 {A : Type} (f : nat -> A) (n i : nat) (d : A) :
  (i < n)%nat -> nth i (map f (seq 0 n)) d = f i.
Proof.
  intros Hi. rewrite nth_indep with (d' := f 0%nat) by (rewrite length_map, length_seq; exact Hi).
  rewrite map_nth, seq_nth by exact Hi. reflexivity.
Qed.

Lemma nth_map_rows (g : list Z -> list Z) (rows : list (list Z)) (r : nat) :
  (r < length rows)%nat -> nth r (map g rows) [] = g (nth r rows []).
Proof.
  intros Hr. rewrite nth_indep with (d' := g []) by (rewrite length_map; exact Hr).
  apply map_nth.
Qed.

(** X14. Every valid [directions] token is stored as 1 ("minimize") or -1
    ("maximize"), by every constructor; and in the matrix of the element-wise
    variants, wherever candidate i has one raw value per direction, entry
    (i, j) is the j-th raw value of candidate i times [directions[j]]. *)
Theorem elementwise_direction_signs {X : Type} :
  (forall (F : Type) (fa : funs_arg F) num toks ns tp o,
     (Objective_init fa num (Some toks) ns tp = Ok o \/
      exists b, BatchObjective_init fa (Some b) num (Some toks) ns tp = Ok (mkBatch o b)) ->
     Forall (fun t => t = "minimize"%string \/ t = "maximize"%string) toks /\
     directions o = map (fun t => if String.eqb t "minimize" then 1%Z else (-1)%Z) toks) /\
  (forall (o : objective (efun X)) items b,
     ElementWise_evaluate o items = Ok b -> items <> [] ->
     exists res, map_py (fun f => map_py f items) (objective_functions o) = Ok res /\
       forall i j, (i < length items)%nat -> length (raw_row res i) = length (directions o) ->
         entry b i j = (nth j (raw_row res i) 0 * nth j (directions o) 0)%Z) /\
  (forall sched (o : objective (afun X pyval)) items b,
     snd (AsyncElementWise_evaluate sched o items) = Ok b -> items <> [] ->
     exists res, Forall2 (fun f r => is_coro f = true /\ map_py (acall f) items = Ok r)
                         (objective_functions o) res /\
       forall i j, (i < length items)%nat -> length (raw_row res i) = length (directions o) ->
         entry b i j = (nth j (raw_row res i) 0 * nth j (directions o) 0)%Z).
Proof.
  split; [|split].
  - intros F fa num toks ns tp o Hinit.
    assert (Ho : Objective_init fa num (Some toks) ns tp = Ok o).
    { destruct Hinit as [H|[b H]]; [exact H|].
      unfold BatchObjective_init in H.
      destruct (Objective_init fa num (Some toks) ns tp) as [o'|e]; simpl in H; [|discriminate].
      injection H as <-. reflexivity. }
    destruct (Objective_init_fields _ _ _ _ _ o Ho) as [_ [_ [_ [Hd _]]]].
    destruct (Hd toks eq_refl) as [_ Hp]. exact (parse_directions_map _ _ Hp).
  - intros o items b H Hne.
    unfold ElementWise_evaluate in H.
    destruct (ElementWise_solutions (objective_functions o) items) as [a|e] eqn:Ea;
      simpl in H; [|discriminate].
    destruct (ElementWise_solutions_rows _ _ a Ea Hne) as [res [Hres Hrows]].
    exists res. split; [exact Hres|]. intros i j Hi Hl.
    destruct Hrows as [[w ->]|[-> Hempty]].
    + destruct (mul_directions_A2 _ _ _ b H) as [w' ->]. unfold entry; simpl.
      rewrite map_map, nth_map_seq0 by exact Hi. apply mul_row_nth. exact Hl.
    + rewrite (Hempty i Hi) in Hl |- *. simpl in H.
      destruct (broadcast_width 0 (length (directions o))); [|discriminate].
      injection H as <-. unfold entry; simpl. destruct (directions o); [|discriminate].
      destruct i as [|[|i]]; destruct j; reflexivity.
  - intros sched o items b H Hne. rewrite AsyncElementWise_evaluate_split in H. simpl in H.
    destruct (snd (AsyncElementWise_solutions sched o items)) as [a|e] eqn:Ea;
      simpl in H; [|discriminate].
    destruct (AsyncElementWise_solutions_rows sched o items a Ea Hne) as [res [Hres Hrows]].
    exists res. split; [exact Hres|]. intros i j Hi Hl.
    destruct Hrows as [[w ->]|[-> Hempty]].
    + destruct (mul_directions_A2 _ _ _ b H) as [w' ->]. unfold entry; simpl.
      rewrite map_map, nth_map_seq0 by exact Hi. apply mul_row_nth. exact Hl.
    + rewrite (Hempty i Hi) in Hl |- *. simpl in H.
      destruct (broadcast_width 0 (length (directions o))); [|discriminate].
      injection H as <-. unfold entry; simpl. destruct (directions o); [|discriminate].
      destruct i as [|[|i]]; destruct j; reflexivity.
Qed.

(** C2 (code bug). The same missing [.T] in [Objective.evaluate]: with two
    vectorized functions f(p) = p and g(p) = 10 p on candidates [1; 2] and
    directions minimize, maximize, the signs act on the candidates, not on
    the objectives. Entry (0, 1) is -f(2) = -2, not -g(1) = -10, which is
    what [ElementWiseObjective] returns for the same functions per item. *)
Lemma evaluate_sign_vectorized_flat :
  let f : vfun Z := fun ps => Ok (A1 ps) in
  let g : vfun Z := fun ps => Ok (A1 (map (fun p => 10 * p)%Z ps)) in
  let fe : efun Z := fun p => Ok (Scalar p) in
  let ge : efun Z := fun p => Ok (Scalar (10 * p)%Z) in
  exists o oe,
    Objective_init (FunList [f; g]) None (Some ["minimize"; "maximize"]%string)
                   None None = Ok o /\
    Objective_init (FunList [fe; ge]) None (Some ["minimize"; "maximize"]%string)
                   None None = Ok oe /\
    Objective_evaluate o [1; 2]%Z = Ok (A2 2 [[1; -2]; [10; -20]]%Z) /\
    ElementWise_evaluate oe [1; 2]%Z = Ok (A2 2 [[1; -10]; [2; -20]]%Z) /\
    entry (A2 2 [[1; -2]; [10; -20]]%Z) 0 1 = (-2)%Z /\
    (g [1%Z] = Ok (A1 [10%Z]) /\ entry (A2 2 [[1; -2]; [10; -20]]%Z) 0 1 <> (- 10)%Z) /\
    entry (A2 2 [[1; -10]; [2; -20]]%Z) 0 1 = (- 10)%Z.
Proof.
  intros f g fe ge. do 2 eexists. split; [reflexivity|]. split; [reflexivity|].
  split; [reflexivity|]. split; [vm_compute; reflexivity|].
  split; [reflexivity|]. split; [split; [reflexivity|discriminate]|reflexivity].
Qed.

(** ** C3: the vectorized and the element-wise variants *)

Lemma map_py_per_item {X : Type} (g : X -> result (list Z)) (items : list X) :
  map_py (per_item_of g) items = (vs <- map_py g items ;; Ok (map Vector vs)).
Proof.
  induction items as [|x items IH]; [reflexivity|]. cbn [map_py]. rewrite IH.
  unfold per_item_of. destruct (g x) as [v|e]; simpl; [|reflexivity].
  destruct (map_py g items); reflexivity.
Qed.

Lemma map_py_lengths {X : Type} (g : X -> result (list Z)) (k : nat) (items : list X)
    (vs : list (list Z)) :
  (forall x v, g x = Ok v -> length v = k) -> map_py g items = Ok vs ->
  Forall (fun v => length v = k) vs /\ length vs = length items.
Proof.
  intros Hg. revert vs. induction items as [|x items IH]; intros vs H; simpl in H.
  - injection H as <-. split; [constructor|reflexivity].
  - destruct (g x) as [v|e] eqn:Ev; simpl in H; [|discriminate].
    destruct (map_py g items) as [vs'|e]; simpl in H; [|discriminate].
    injection H as <-. destruct (IH vs' eq_refl) as [Hf Hl].
    split; [constructor; [exact (Hg x v Ev)|exact Hf]|simpl; f_equal; exact Hl].
Qed.

Lemma forallb_lengths (vs : list (list Z)) (k : nat) :
  Forall (fun v => length v = k) vs -> forallb (fun v => Nat.eqb (length v) k) vs = true.
Proof.
  intros H. apply forallb_forall. intros v Hv. apply Nat.eqb_eq.
  exact (proj1 (Forall_forall _ _) H v Hv).
Qed.

Lemma all_some_vectors (vs : list (list Z)) :
  all_some (map vector_of (map Vector vs)) = Some vs.
Proof. induction vs as [|v vs IH]; [reflexivity|]. simpl. rewrite IH. reflexivity. Qed.

Lemma column_of_columns (vs : list (list Z)) (k i : nat) :
  (i < length vs)%nat -> length (nth i vs []) = k ->
  column i (map (fun j => column j vs) (seq 0 k)) = nth i vs [].
Proof.
  intros Hi Hk. unfold column at 1. rewrite map_map.
  rewrite (map_ext _ (fun j => nth j (nth i vs []) 0%Z)) by (intros j; apply nth_column).
  rewrite <- Hk. apply map_nth_seq.
Qed.

Lemma ew_transpose_columns (vs : list (list Z)) (k : nat) :
  (1 <= k)%nat -> vs <> [] -> Forall (fun v => length v = k) vs ->
  (sols <- np_array_rows (map (fun j => column j vs) (seq 0 k)) ;; Ok (transpose sols))
  = Ok (A2 k vs).
Proof.
  intros Hk Hne Hf.
  assert (Hcols : forall c, In c (map (fun j => column j vs) (seq 0 k)) -> length c = length vs).
  { intros c Hc. apply in_map_iff in Hc. destruct Hc as [j [<- _]]. apply length_map. }
  destruct k as [|k']; [lia|]. cbn [seq map].
  unfold np_array_rows.
  replace (forallb _ _) with true.
  2:{ symmetry. apply forallb_forall. intros c Hc. apply Nat.eqb_eq.
      rewrite (Hcols c Hc). unfold column. rewrite length_map. reflexivity. }
  cbn [bind transpose].
  change (column 0 vs :: map (fun j => column j vs) (seq 1 k'))
    with (map (fun j => column j vs) (seq 0 (S k'))).
  f_equal. f_equal; [rewrite length_map, length_seq; reflexivity|].
  replace (length (column 0 vs)) with (length vs) by (unfold column; symmetry; apply length_map).
  rewrite <- (map_nth_seq vs []) at 2.
  apply map_ext_in. intros i Hi. apply in_seq in Hi.
  apply column_of_columns; [lia|].
  apply (proj1 (Forall_forall _ _) Hf). apply nth_In. lia.
Qed.

Lemma vectorized_solutions {X : Type} (k : nat) (g : X -> result (list Z)) (items : list X)
    (vs : list (list Z)) :
  (1 <= k)%nat -> vs <> [] -> Forall (fun v => length v = k) vs ->
  map_py g items = Ok vs ->
  Objective_solutions [vectorized_of k g] items = Ok (A2 k vs) /\
  ElementWise_solutions [per_item_of g] items = Ok (A2 k vs).
Proof.
  intros Hk Hne Hf Hg. split.
  - unfold Objective_solutions. simpl. unfold vectorized_of. rewrite Hg. simpl.
    rewrite app_nil_r. destruct vs as [|v0 vs']; [contradiction|].
    unfold np_array_rows. inversion Hf as [|? ? Hv0 _]; subst.
    rewrite (forallb_lengths (v0 :: vs') (length v0) Hf). reflexivity.
  - unfold ElementWise_solutions. cbn [map_py]. rewrite map_py_per_item, Hg. simpl.
    destruct vs as [|v0 vs']; [contradiction|].
    inversion Hf as [|? ? Hv0 Hf']; subst. simpl.
    rewrite all_some_vectors. simpl.
    rewrite Nat.eqb_refl, (forallb_lengths vs' (length v0) Hf'). simpl.
    rewrite app_nil_r.
    apply (ew_transpose_columns (v0 :: vs') (length v0) Hk ltac:(discriminate) Hf).
Qed.

Lemma Objective_init_directions_fa {F G : Type} (fa : funs_arg F) (ga : funs_arg G)
    num ds ns tp (o : objective F) (o' : objective G) :
  length (functions_of fa) = length (functions_of ga) ->
  Objective_init fa num ds ns tp = Ok o -> Objective_init ga num ds ns tp = Ok o' ->
  directions o = directions o'.
Proof.
  intros Hl H H'.
  destruct (Objective_init_fields _ _ _ _ _ _ H) as [_ [_ [Hn [Hs _]]]].
  destruct (Objective_init_fields _ _ _ _ _ _ H') as [_ [_ [Hn' [Hs' _]]]].
  destruct ds as [l|].
  - destruct (Hs l eq_refl) as [_ E]. destruct (Hs' l eq_refl) as [_ E'].
    rewrite E in E'. injection E' as E'. exact E'.
  - rewrite (Hn eq_refl), (Hn' eq_refl). unfold num_objectives_of. rewrite Hl. reflexivity.
Qed.

(** X15. For one objective function [g] giving [k >= 1] values per
    candidate, written vectorized (returning the (N, k) matrix of the
    per-candidate results) and per item (returning the vector of [k]
    values), [Objective] and [ElementWiseObjective] give the same stacked
    matrix on every non-empty candidate sequence, the same exception when
    [g] raises, and so the same fitness matrix when built with the same
    arguments. *)
Theorem single_matrix_function_agree {X : Type} (k : nat) (g : X -> result (list Z))
    (items : list X) :
  (1 <= k)%nat -> items <> [] -> (forall x v, g x = Ok v -> length v = k) ->
  Objective_solutions [vectorized_of k g] items = ElementWise_solutions [per_item_of g] items /\
  (forall num ds ns tp ov oe,
     Objective_init (SingleFun (vectorized_of k g)) num ds ns tp = Ok ov ->
     Objective_init (SingleFun (per_item_of g)) num ds ns tp = Ok oe ->
     Objective_evaluate ov items = ElementWise_evaluate oe items).
Proof.
  intros Hk Hne Hg.
  assert (Hsol : Objective_solutions [vectorized_of k g] items =
                 ElementWise_solutions [per_item_of g] items).
  { destruct (map_py g items) as [vs|e] eqn:Evs.
    - destruct (map_py_lengths g k items vs Hg Evs) as [Hf Hl].
      assert (Hvs : vs <> []) by (intros ->; destruct items; [contradiction|discriminate]).
      destruct (vectorized_solutions k g items vs Hk Hvs Hf Evs) as [-> ->]. reflexivity.
    - unfold Objective_solutions, ElementWise_solutions. cbn [map_py].
      unfold vectorized_of at 1. rewrite map_py_per_item, Evs. reflexivity. }
  split; [exact Hsol|].
  intros num ds ns tp ov oe Hv He.
  destruct (Objective_init_fields _ _ _ _ _ _ Hv) as [Fv _].
  destruct (Objective_init_fields _ _ _ _ _ _ He) as [Fe _].
  unfold Objective_evaluate, ElementWise_evaluate.
  rewrite Fv, Fe. simpl functions_of. rewrite Hsol.
  assert (Hl : length (functions_of (SingleFun (vectorized_of k g))) =
               length (functions_of (SingleFun (per_item_of g)))) by reflexivity.
  rewrite (Objective_init_directions_fa _ _ _ _ _ _ _ _ Hl Hv He). reflexivity.
Qed.

(** C3 (code bug). The same missing [.T] in [Objective.evaluate]: the
    square function written vectorized (one value per candidate, a flat
    array) and per item (a number) gives, on candidates [1; 2], the one-row
    matrix [[1; 4]] through [Objective] and the two-row matrix [[1]; [4]]
    through [ElementWiseObjective], which transposes. *)
Lemma vectorized_elementwise_flat :
  let F : vfun Z := fun ps => Ok (A1 (map (fun p => p * p)%Z ps)) in
  let f : efun Z := fun p => Ok (Scalar (p * p)%Z) in
  exists ov oe,
    Objective_init (SingleFun F) None None None None = Ok ov /\
    Objective_init (SingleFun f) None None None None = Ok oe /\
    Objective_evaluate ov [1; 2]%Z = Ok (A2 2 [[1; 4]%Z]) /\
    ElementWise_evaluate oe [1; 2]%Z = Ok (A2 1 [[1]; [4]]%Z) /\
    Objective_evaluate ov [1; 2]%Z <> ElementWise_evaluate oe [1; 2]%Z.
Proof.
  intros F f. do 2 eexists. split; [reflexivity|]. split; [reflexivity|].
  split; [reflexivity|]. split; [reflexivity|]. vm_compute. discriminate.
Qed.

(** ** Instances of the theorems with hypotheses *)

(** C4 at seven candidates in batches of three. *)
Lemma make_batches_partition_witness :
  exists bs, make_batches [1; 2; 3; 4; 5; 6; 7]%Z 3%Z = Ok bs /\
    Z.of_nat (length bs) = 3%Z /\ concat bs = [1; 2; 3; 4; 5; 6; 7]%Z.
Proof.
  destruct (make_batches_partition [1; 2; 3; 4; 5; 6; 7]%Z 3%Z ltac:(simpl; lia) ltac:(lia))
    as [bs [Hbs [Hlen [_ [_ [_ Hcat]]]]]].
  exists bs. split; [exact Hbs|]. split; [rewrite Hlen; reflexivity|exact Hcat].
Defined.

(** C7 at three directions for two objective functions. *)
Lemma Objective_init_bad_directions_witness :
  Objective_init (FunList [(fun _ => Ok (A1 [])) : vfun Z; (fun _ => Ok (A1 []))]) None
    (Some ["minimize"; "maximize"; "minimize"]%string) None None = Err ValueError /\
  (forall b, BatchObjective_init (FunList [(fun _ => Ok (A1 [])) : vfun Z; (fun _ => Ok (A1 []))])
               (Some b) None (Some ["minimize"; "maximize"; "minimize"]%string) None None
             = Err ValueError).
Proof.
  apply Objective_init_bad_directions. left. simpl. lia.
Defined.

(** C8 at one function declared with two objectives. *)
Lemma construction_lengths_witness :
  Objective_init (FunList [(fun _ => Ok (A1 [])) : vfun Z]) (Some 2%Z) None None None =
    Ok (mkObjective [fun _ => Ok (A1 [])] 2%Z (py_repeat 1%Z 2%Z) (default_names 2%Z) None) /\
  Z.of_nat (length (py_repeat 1%Z 2%Z)) = 2%Z /\
  Z.of_nat (length (default_names 2%Z)) = 2%Z /\
  Objective_init (FunList [(fun _ => Ok (A1 [])) : vfun Z]) (Some (-3)%Z) None None None =
    Ok (mkObjective [fun _ => Ok (A1 [])] (-3)%Z [] [] None).
Proof.
  split; [reflexivity|].
  destruct (construction_lengths (FunList [(fun _ => Ok (A1 [])) : vfun Z]) (Some 2%Z) None None
              None (mkObjective [fun _ => Ok (A1 [])] 2%Z (py_repeat 1%Z 2%Z)
                                (default_names 2%Z) None)
              (or_introl eq_refl)) as [Hpos [_ Hneg]].
  destruct (Hpos ltac:(simpl; lia)) as [H1 [H2 _]].
  destruct (Hneg (-3)%Z 5%Z ltac:(lia)) as [H3 _].
  split; [exact H1|]. split; [exact H2|exact H3].
Defined.

(** X15 at the function [x => [x; 2 x]] on candidates [1; 2; 3]. *)
Lemma single_matrix_function_agree_witness :
  Objective_solutions [vectorized_of 2 (fun x : Z => Ok [x; 2 * x]%Z)] [1; 2; 3]%Z =
  ElementWise_solutions [per_item_of (fun x : Z => Ok [x; 2 * x]%Z)] [1; 2; 3]%Z.
Proof.
  apply (single_matrix_function_agree 2 (fun x : Z => Ok [x; 2 * x]%Z) [1; 2; 3]%Z).
  - lia.
  - discriminate.
  - intros x v Hv. injection Hv as <-. reflexivity.
Defined.

(** ** Further properties of the constructor *)

(** X1. A list of objective names whose length differs from
    [num_objectives] makes [Objective] and [BatchObjective] raise
    [ValueError]; no object is built. *)
Theorem Objective_init_bad_names {F : Type} (fa : funs_arg F) num ds ns tp :
  Z.of_nat (length ns) <> num_objectives_of fa num ->
  Objective_init fa num ds (Some ns) tp = Err ValueError /\
  (forall b, BatchObjective_init fa (Some b) num ds (Some ns) tp = Err ValueError).
Proof.
  intros Hl.
  assert (H : Objective_init fa num ds (Some ns) tp = Err ValueError).
  { unfold Objective_init.
    destruct (match ds with
              | None => Ok (py_repeat 1%Z (num_objectives_of fa num))
              | Some ds0 =>
                  if negb (Z.of_nat (length ds0) =? num_objectives_of fa num)%Z
                  then Err ValueError else parse_directions ds0
              end) as [dirs|e] eqn:Ed; simpl.
    - apply Z.eqb_neq in Hl. rewrite Hl. reflexivity.
    - destruct ds as [l|]; [|discriminate].
      destruct (negb _); [congruence|].
      revert Ed. clear. revert e. induction l as [|d l IH]; intros e Ed; simpl in Ed;
        [discriminate|].
      destruct (orb _ _); [|congruence].
      destruct (parse_directions l) as [r|e'] eqn:Er; simpl in Ed; [discriminate|].
      injection Ed as <-. exact (IH e' eq_refl). }
  split; [exact H|]. intros b. simpl. rewrite H. reflexivity.
Qed.

Lemma digits_aux_S (fuel n : nat) (acc : string) :
  digits_aux (S fuel) n acc =
  (if Nat.ltb n 10 then String (ascii_of_nat (48 + n mod 10)) acc
   else digits_aux fuel (n / 10) (String (ascii_of_nat (48 + n mod 10)) acc)).
Proof. reflexivity. Qed.

Lemma digits_value_cons (a : nat) (c : ascii) (s : string) :
  digits_value a (String c s) = digits_value (10 * a + (nat_of_ascii c - 48)) s.
Proof. reflexivity. Qed.

Lemma digits_value_digits_aux (fuel n : nat) (acc : string) :
  (n < fuel)%nat -> digits_value 0 (digits_aux fuel n acc) = digits_value n acc.
Proof.
  revert n acc. induction fuel as [|fuel IH]; intros n acc Hn; [lia|].
  rewrite digits_aux_S.
  assert (Hd : nat_of_ascii (ascii_of_nat (48 + n mod 10)) - 48 = n mod 10).
  { pose proof (Nat.mod_upper_bound n 10 ltac:(lia)).
    rewrite Ascii.nat_ascii_embedding; lia. }
  destruct (Nat.ltb_spec n 10) as [Hlt|Hge].
  - rewrite digits_value_cons, Hd, Nat.mod_small by exact Hlt. reflexivity.
  - rewrite IH.
    + rewrite digits_value_cons, Hd. f_equal. pose proof (Nat.div_mod_eq n 10). lia.
    + pose proof (Nat.div_lt n 10). lia.
Qed.

Lemma string_of_nat_inj (m n : nat) : string_of_nat m = string_of_nat n -> m = n.
Proof.
  intros H.
  assert (Hv : forall k, digits_value 0 (string_of_nat k) = k).
  { intros k. unfold string_of_nat. rewrite digits_value_digits_aux by lia.
    reflexivity. }
  rewrite <- (Hv m), <- (Hv n), H. reflexivity.
Qed.

Lemma append_inj_l (p s t : string) : append p s = append p t -> s = t.
Proof.
  induction p as [|c p IH]; simpl; [tauto|]. intros H. injection H as H. exact (IH H).
Qed.

(** X2. The default objective names ["objective_<i>"] are pairwise
    distinct, whatever the number of objectives. *)
Theorem default_names_distinct (n : Z) : NoDup (default_names n).
Proof.
  unfold default_names. generalize (seq_NoDup (Z.to_nat n) 0). generalize (seq 0 (Z.to_nat n)).
  intros l Hl. induction Hl as [|i l Hi Hl IH]; simpl; constructor; [|exact IH].
  intros Hin. apply in_map_iff in Hin. destruct Hin as [j [Hj Hjl]].
  apply (append_inj_l "objective_"), string_of_nat_inj in Hj. subst j. contradiction.
Qed.

(** ** Empty populations and non-positive batch sizes *)

Lemma map_py_nil_calls {A B : Type} (fs : list (A -> result B)) :
  map_py (fun f => map_py f []) fs = Ok (repeat [] (length fs)).
Proof.
  induction fs as [|f fs IH]; [reflexivity|].
  change (map_py (fun f => map_py f []) (f :: fs))
    with (y <- map_py f [] ;; ys <- map_py (fun f => map_py f []) fs ;; Ok (y :: ys)).
  rewrite IH. reflexivity.
Qed.

Lemma np_array_vals_empty (m : nat) :
  map_py np_array_vals (repeat (@nil pyval) m) = Ok (repeat (A1 []) m).
Proof. induction m as [|m IH]; [reflexivity|]. simpl. rewrite IH. reflexivity. Qed.

Lemma ew_stack_empty (m : nat) :
  (1 <= m)%nat ->
  (sols <- np_array_rows (flat_map ew_columns (repeat (A1 []) m)) ;; Ok (transpose sols))
  = Ok (A2 m []).
Proof.
  intros Hm.
  assert (Hc : flat_map ew_columns (repeat (A1 []) m) = repeat [] m).
  { clear. induction m as [|m IH]; [reflexivity|]. simpl. rewrite IH. reflexivity. }
  rewrite Hc. destruct m as [|m]; [lia|]. unfold np_array_rows. simpl repeat.
  assert (Hf : forallb (fun s : list Z => Nat.eqb (length s) (length (@nil Z)))
                       ([] :: repeat [] m) = true).
  { apply forallb_forall. intros s Hs. apply (repeat_spec (S m)) in Hs. subst s. reflexivity. }
  cbv beta iota. rewrite Hf. simpl. rewrite repeat_length. reflexivity.
Qed.

Lemma async_groups_empty {X : Type} sched k (fs : list (afun X pyval)) :
  Forall (fun f => is_coro f = true) fs ->
  async_groups sched k fs [] = ([], Ok (repeat (A1 []) (length fs))).
Proof.
  intros Hf. revert k. induction Hf as [|f fs Hc Hf IH]; intros k; [reflexivity|].
  simpl. unfold async_evaluate. rewrite Hc. simpl.
  assert (Hg : gather (sched k 0%nat) (@nil (result pyval)) = Ok []).
  { unfold gather. generalize (sched k 0%nat). intros l.
    induction l as [|i l IHl]; [reflexivity|]. simpl. destruct i; exact IHl. }
  rewrite Hg. simpl. rewrite IH. reflexivity.
Qed.

(** X3. On an empty population the element-wise variants call no function
    and return a matrix with no rows and one column per function, provided
    [directions] has one entry per function and there is at least one
    function; the asynchronous one dispatches no task. *)
Theorem elementwise_empty_population {X : Type} :
  (forall (o : objective (efun X)),
     objective_functions o <> [] ->
     length (directions o) = length (objective_functions o) ->
     ElementWise_evaluate o [] = Ok (A2 (length (objective_functions o)) [])) /\
  (forall sched (o : objective (afun X pyval)),
     objective_functions o <> [] ->
     Forall (fun f => is_coro f = true) (objective_functions o) ->
     length (directions o) = length (objective_functions o) ->
     AsyncElementWise_evaluate sched o [] = ([], Ok (A2 (length (objective_functions o)) []))).
Proof.
  split.
  - intros o Hne Hl. unfold ElementWise_evaluate, ElementWise_solutions.
    rewrite map_py_nil_calls. simpl bind at 1. rewrite np_array_vals_empty. simpl bind at 1.
    rewrite ew_stack_empty by (destruct (objective_functions o); [contradiction|simpl; lia]).
    simpl. rewrite Hl. unfold broadcast_width. rewrite Nat.eqb_refl. reflexivity.
  - intros sched o Hne Hc Hl. unfold AsyncElementWise_evaluate, AsyncElementWise_solutions.
    rewrite async_groups_empty by exact Hc. simpl bind at 1.
    rewrite ew_stack_empty by (destruct (objective_functions o); [contradiction|simpl; lia]).
    simpl. rewrite Hl. unfold broadcast_width. rewrite Nat.eqb_refl. reflexivity.
Qed.

Lemma gather_nil {B : Type} (order : list nat) : gather order (@nil (result B)) = Ok [].
Proof.
  unfold gather. induction order as [|i order IH]; [reflexivity|]. simpl. destruct i; exact IH.
Qed.

Lemma batch_groups_dispatch {X : Type} sched (fs : list (afun (list X) ndarray)) bs :
  forall k0, exists k, (k <= length fs)%nat /\
    fst (batch_groups sched k0 fs bs) = flat_map (fun j => map (fun x => (j, x)) bs) (seq k0 k) /\
    (forall rs, snd (batch_groups sched k0 fs bs) = Ok rs -> k = length fs) /\
    (forall j, (j < k)%nat -> exists f, nth_error fs j = Some f /\ is_coro f = true) /\
    (forall j f, (S j < k)%nat -> nth_error fs j = Some f -> batch_group_ok sched (k0 + j) f bs) /\
    ((k < length fs)%nat ->
       (exists f, nth_error fs k = Some f /\ is_coro f = false) \/
       (exists j f, S j = k /\ nth_error fs j = Some f /\ ~ batch_group_ok sched (k0 + j) f bs)).
Proof.
  induction fs as [|f fs IH]; intros k0.
  - exists 0%nat. split; [lia|]. split; [reflexivity|]. split; [reflexivity|].
    split; [intros j Hj; lia|]. split; [intros j f Hj; lia|].
    intros H; simpl in H; lia.
  - simpl. destruct (is_coro f) eqn:Ec; simpl.
    2:{ exists 0%nat. split; [lia|]. split; [reflexivity|].
        split; [intros rs H; discriminate|]. split; [intros j Hj; lia|].
        split; [intros j g Hj; lia|].
        intros _. left. exists f. split; [reflexivity|exact Ec]. }
    unfold async_evaluate. rewrite Ec. simpl.
    assert (H1 : map (fun x => (k0, x)) bs =
                 flat_map (fun j => map (fun x => (j, x)) bs) (seq k0 1)).
    { simpl. rewrite app_nil_r. reflexivity. }
    assert (Hc1 : forall j, (j < 1)%nat -> exists g, nth_error (f :: fs) j = Some g /\ is_coro g = true).
    { intros j Hj. replace j with 0%nat by lia. exists f. split; [reflexivity|exact Ec]. }
    assert (Hg1 : forall j g, (S j < 1)%nat -> nth_error (f :: fs) j = Some g ->
                              batch_group_ok sched (k0 + j) g bs) by (intros; lia).
    destruct (gather (sched k0 (length bs)) (map (acall f) bs)) as [outs|e] eqn:Eg.
    2:{ exists 1%nat. split; [simpl; lia|]. split; [exact H1|].
        split; [intros rs H; discriminate|]. split; [exact Hc1|]. split; [exact Hg1|].
        intros _. right. exists 0%nat, f. split; [reflexivity|]. split; [reflexivity|].
          rewrite Nat.add_0_r. intros [_ [outs [r [E _]]]]. rewrite Eg in E. discriminate. }
    destruct (np_concatenate outs) as [r|e] eqn:Ecat.
    2:{ exists 1%nat. split; [simpl; lia|]. split; [exact H1|].
        split; [intros rs H; discriminate|]. split; [exact Hc1|]. split; [exact Hg1|].
        intros _. right. exists 0%nat, f. split; [reflexivity|]. split; [reflexivity|].
          rewrite Nat.add_0_r. intros [_ [outs' [r' [E E']]]]. rewrite Eg in E.
          injection E as <-. rewrite Ecat in E'. discriminate. }
    destruct (IH (S k0)) as [k [Hk [Htr [Hok [Hc [Hg Hstop]]]]]].
    destruct (batch_groups sched (S k0) fs bs) as [tr' rest] eqn:Eb. simpl in Htr, Hok.
    exists (S k). split; [lia|]. split; [simpl; rewrite Htr; reflexivity|].
    split; [|split; [|split]].
    + simpl. intros rs H. destruct rest as [rs'|e]; [|discriminate].
      rewrite (Hok rs' eq_refl). reflexivity.
    + intros [|j] Hj; [exists f; split; [reflexivity|exact Ec]|].
      apply (Hc j). lia.
    + intros [|j] g Hj Hn.
      * simpl in Hn. injection Hn as <-. rewrite Nat.add_0_r.
        split; [exact Ec|]. exists outs, r. split; [exact Eg|exact Ecat].
      * simpl in Hn. replace (k0 + S j)%nat with (S k0 + j)%nat by lia.
        apply (Hg j g); [lia|exact Hn].
    + intros Hlt. simpl in Hlt. destruct (Hstop ltac:(lia)) as [[g [Hn Hg']]|[j [g [Hj [Hn Hng]]]]].
      * left. exists g. split; [exact Hn|exact Hg'].
      * right. exists (S j), g. split; [lia|]. split; [exact Hn|].
        replace (k0 + S j)%nat with (S k0 + j)%nat by lia. exact Hng.
Qed.

Lemma async_groups_dispatch {X : Type} sched (fs : list (afun X pyval)) items :
  forall k0, exists k, (k <= length fs)%nat /\
    fst (async_groups sched k0 fs items) =
      flat_map (fun j => map (fun x => (j, x)) items) (seq k0 k) /\
    (forall rs, snd (async_groups sched k0 fs items) = Ok rs -> k = length fs) /\
    (forall j, (j < k)%nat -> exists f, nth_error fs j = Some f /\ is_coro f = true) /\
    (forall j f, (S j < k)%nat -> nth_error fs j = Some f -> async_group_ok sched (k0 + j) f items) /\
    ((k < length fs)%nat ->
       (exists f, nth_error fs k = Some f /\ is_coro f = false) \/
       (exists j f, S j = k /\ nth_error fs j = Some f /\ ~ async_group_ok sched (k0 + j) f items)).
Proof.
  induction fs as [|f fs IH]; intros k0.
  - exists 0%nat. split; [lia|]. split; [reflexivity|]. split; [reflexivity|].
    split; [intros j Hj; lia|]. split; [intros j f Hj; lia|].
    intros H; simpl in H; lia.
  - simpl. unfold async_evaluate. destruct (is_coro f) eqn:Ec; simpl.
    2:{ exists 0%nat. split; [lia|]. split; [reflexivity|].
        split; [intros rs H; discriminate|]. split; [intros j Hj; lia|].
        split; [intros j g Hj; lia|].
        intros _. left. exists f. split; [reflexivity|exact Ec]. }
    assert (H1 : map (fun x => (k0, x)) items =
                 flat_map (fun j => map (fun x => (j, x)) items) (seq k0 1)).
    { simpl. rewrite app_nil_r. reflexivity. }
    assert (Hc1 : forall j, (j < 1)%nat -> exists g, nth_error (f :: fs) j = Some g /\ is_coro g = true).
    { intros j Hj. replace j with 0%nat by lia. exists f. split; [reflexivity|exact Ec]. }
    assert (Hg1 : forall j g, (S j < 1)%nat -> nth_error (f :: fs) j = Some g ->
                              async_group_ok sched (k0 + j) g items) by (intros; lia).
    destruct (gather (sched k0 (length items)) (map (acall f) items)) as [outs|e] eqn:Eg.
    2:{ exists 1%nat. split; [simpl; lia|]. split; [exact H1|].
        split; [intros rs H; discriminate|]. split; [exact Hc1|]. split; [exact Hg1|].
        intros _. right. exists 0%nat, f. split; [reflexivity|]. split; [reflexivity|].
          rewrite Nat.add_0_r. intros [_ [outs [r [E _]]]]. rewrite Eg in E. discriminate. }
    destruct (np_array_vals outs) as [r|e] eqn:Ev.
    2:{ exists 1%nat. split; [simpl; lia|]. split; [exact H1|].
        split; [intros rs H; discriminate|]. split; [exact Hc1|]. split; [exact Hg1|].
        intros _. right. exists 0%nat, f. split; [reflexivity|]. split; [reflexivity|].
          rewrite Nat.add_0_r. intros [_ [outs' [r' [E E']]]]. rewrite Eg in E.
          injection E as <-. rewrite Ev in E'. discriminate. }
    destruct (IH (S k0)) as [k [Hk [Htr [Hok [Hc [Hg Hstop]]]]]].
    destruct (async_groups sched (S k0) fs items) as [tr' rest] eqn:Eb. simpl in Htr, Hok.
    exists (S k). split; [lia|]. split; [simpl; rewrite Htr; reflexivity|].
    split; [|split; [|split]].
    + simpl. intros rs H. destruct rest as [rs'|e]; [|discriminate].
      rewrite (Hok rs' eq_refl). reflexivity.
    + intros [|j] Hj; [exists f; split; [reflexivity|exact Ec]|].
      apply (Hc j). lia.
    + intros [|j] g Hj Hn.
      * simpl in Hn. injection Hn as <-. rewrite Nat.add_0_r.
        split; [exact Ec|]. exists outs, r. split; [exact Eg|exact Ev].
      * simpl in Hn. replace (k0 + S j)%nat with (S k0 + j)%nat by lia.
        apply (Hg j g); [lia|exact Hn].
    + intros Hlt. simpl in Hlt. destruct (Hstop ltac:(lia)) as [[g [Hn Hg']]|[j [g [Hj [Hn Hng]]]]].
      * left. exists g. split; [exact Hn|exact Hg'].
      * right. exists (S j), g. split; [lia|]. split; [exact Hn|].
        replace (k0 + S j)%nat with (S k0 + j)%nat by lia. exact Hng.
Qed.

(** X4. The asynchronous variants dispatch whole groups in the order of the
    functions, and stop at the first group that fails: the tasks created by
    [evaluate] are, for the first [k] functions in turn, one task per
    candidate (per batch for [BatchObjective]) in input order; these [k]
    functions are coroutine functions, and the group of every one of them
    but the last completed; when [k] is less than the number of functions,
    either function [k] is not a coroutine function or the group of
    function [k - 1] failed; and on success [k] is the number of functions. *)
Theorem dispatch_whole_groups_in_order {X : Type} :
  (forall sched (o : objective (afun X pyval)) items,
     exists k, (k <= length (objective_functions o))%nat /\
       fst (AsyncElementWise_evaluate sched o items) =
         flat_map (fun j => map (fun x => (j, x)) items) (seq 0 k) /\
       (forall b, snd (AsyncElementWise_evaluate sched o items) = Ok b ->
                  k = length (objective_functions o)) /\
       (forall j, (j < k)%nat ->
          exists f, nth_error (objective_functions o) j = Some f /\ is_coro f = true) /\
       (forall j f, (S j < k)%nat -> nth_error (objective_functions o) j = Some f ->
          async_group_ok sched j f items) /\
       ((k < length (objective_functions o))%nat ->
          (exists f, nth_error (objective_functions o) k = Some f /\ is_coro f = false) \/
          (exists j f, S j = k /\ nth_error (objective_functions o) j = Some f /\
                       ~ async_group_ok sched j f items))) /\
  (forall sched (bo : batch_objective (afun (list X) ndarray)) items bs,
     make_batches items (batch_size bo) = Ok bs ->
     exists k, (k <= length (objective_functions (batch_base bo)))%nat /\
       fst (Batch_evaluate sched bo items) =
         flat_map (fun j => map (fun b => (j, b)) bs) (seq 0 k) /\
       (forall b, snd (Batch_evaluate sched bo items) = Ok b ->
                  k = length (objective_functions (batch_base bo))) /\
       (forall j, (j < k)%nat ->
          exists f, nth_error (objective_functions (batch_base bo)) j = Some f /\
                    is_coro f = true) /\
       (forall j f, (S j < k)%nat -> nth_error (objective_functions (batch_base bo)) j = Some f ->
          batch_group_ok sched j f bs) /\
       ((k < length (objective_functions (batch_base bo)))%nat ->
          (exists f, nth_error (objective_functions (batch_base bo)) k = Some f /\
                     is_coro f = false) \/
          (exists j f, S j = k /\ nth_error (objective_functions (batch_base bo)) j = Some f /\
                       ~ batch_group_ok sched j f bs))).
Proof.
  split.
  - intros sched o items. rewrite AsyncElementWise_evaluate_split.
    destruct (async_groups_dispatch sched (objective_functions o) items 0)
      as [k [Hk [Htr [Hok [Hc [Hg Hstop]]]]]].
    exists k. split; [exact Hk|]. unfold AsyncElementWise_solutions.
    destruct (async_groups sched 0 (objective_functions o) items) as [tr res].
    simpl in Htr, Hok |- *. split; [exact Htr|].
    split; [|split; [exact Hc|split; [exact Hg|exact Hstop]]].
    intros b H. destruct res as [rs|e]; [exact (Hok rs eq_refl)|discriminate].
  - intros sched bo items bs Hbs. rewrite Batch_evaluate_split.
    destruct (batch_groups_dispatch sched (objective_functions (batch_base bo)) bs 0)
      as [k [Hk [Htr [Hok [Hc [Hg Hstop]]]]]].
    exists k. split; [exact Hk|]. unfold Batch_solutions. rewrite Hbs.
    destruct (batch_groups sched 0 (objective_functions (batch_base bo)) bs) as [tr res].
    simpl in Htr, Hok |- *. split; [exact Htr|].
    split; [|split; [exact Hc|split; [exact Hg|exact Hstop]]].
    intros b H. destruct res as [rs|e]; [exact (Hok rs eq_refl)|discriminate].
Qed.

Lemma make_batches_nil {X : Type} (b : Z) :
  b <> 0%Z -> make_batches (@nil X) b = Ok [].
Proof.
  intros Hb. unfold make_batches. apply Z.eqb_neq in Hb. rewrite Hb. simpl.
  unfold py_range. destruct (0 <? b)%Z; reflexivity.
Qed.

(** X5. [BatchObjective.evaluate] on an empty population raises
    [ValueError] (numpy refuses to concatenate an empty list of batch
    results) and creates no task, whenever [batch_size] is non-zero and
    there is at least one objective function. *)
Theorem batch_empty_population {X : Type} sched (bo : batch_objective (afun (list X) ndarray)) :
  batch_size bo <> 0%Z -> objective_functions (batch_base bo) <> [] ->
  Batch_evaluate sched bo [] = ([], Err ValueError).
Proof.
  intros Hb Hne. rewrite Batch_evaluate_split. unfold Batch_solutions.
  rewrite (make_batches_nil _ Hb).
  destruct (objective_functions (batch_base bo)) as [|f fs]; [contradiction|].
  simpl. destruct (is_coro f) eqn:Ec; simpl; [|reflexivity].
  unfold async_evaluate. rewrite Ec. simpl. rewrite gather_nil. reflexivity.
Qed.

Lemma make_batches_negative {X : Type} (items : list X) (b : Z) :
  (b < 0)%Z ->
  make_batches items b =
    Ok (if (Z.of_nat (length items) mod b =? 0)%Z then [] else [[]]).
Proof.
  intros Hb. unfold make_batches.
  replace (b =? 0)%Z with false by (symmetry; apply Z.eqb_neq; lia).
  set (n := Z.of_nat (length items)).
  assert (Hn : (0 <= n)%Z) by (unfold n; lia).
  pose proof (Z.mod_neg_bound n b Hb) as Hm.
  assert (Hr : forall stop, (0 <= stop)%Z -> py_range 0 stop b = []).
  { intros stop Hs. unfold py_range.
    replace (0 <? b)%Z with false by (symmetry; apply Z.ltb_ge; lia).
    replace (stop <? 0)%Z with false by (symmetry; apply Z.ltb_ge; lia). reflexivity. }
  destruct (n mod b =? 0)%Z.
  - rewrite (Hr n Hn). reflexivity.
  - rewrite (Hr (n - n mod b)%Z) by lia. simpl. f_equal. f_equal.
    unfold py_slice_from, py_slice. fold n.
    replace (n - n mod b <? 0)%Z with false by (symmetry; apply Z.ltb_ge; lia).
    replace (n <? 0)%Z with false by (symmetry; apply Z.ltb_ge; lia).
    rewrite (Z.min_r (n - n mod b)), Z.min_id, Z.sub_diag by lia. reflexivity.
Qed.

(** X6. A negative [batch_size] is accepted and no candidate ever reaches an
    objective function: [evaluate] forms no batch when it divides the
    population size (Python's modulo) and a single empty batch otherwise,
    so every task it creates receives the empty list. *)
Theorem batch_negative_size {X : Type} sched (bo : batch_objective (afun (list X) ndarray))
    (items : list X) :
  (batch_size bo < 0)%Z ->
  make_batches items (batch_size bo) =
    Ok (if (Z.of_nat (length items) mod batch_size bo =? 0)%Z then [] else [[]]) /\
  (forall j b, In (j, b) (fst (Batch_evaluate sched bo items)) -> b = []).
Proof.
  intros Hb. pose proof (make_batches_negative items _ Hb) as Hm. split; [exact Hm|].
  intros j b Hin. rewrite Batch_evaluate_split in Hin. unfold Batch_solutions in Hin.
  rewrite Hm in Hin.
  set (bs := if (Z.of_nat (length items) mod batch_size bo =? 0)%Z then [] else [[]]) in Hin.
  destruct (batch_groups_dispatch sched (objective_functions (batch_base bo)) bs 0)
    as [k [_ [Htr _]]].
  destruct (batch_groups sched 0 (objective_functions (batch_base bo)) bs) as [tr res].
  simpl in Hin, Htr. rewrite Htr in Hin.
  apply in_flat_map in Hin. destruct Hin as [j' [_ Hin]]. apply in_map_iff in Hin.
  destruct Hin as [b' [Heq Hb']]. injection Heq as <- <-.
  unfold bs in Hb'. destruct (_ =? 0)%Z; simpl in Hb'; [contradiction|].
  destruct Hb' as [<-|[]]. reflexivity.
Qed.

(** ** The completion order of the tasks *)

Lemma gather_all_ok {B : Type} (order : list nat) (outs : list (result B)) :
  (forall v, all_ok outs = Ok v -> gather order outs = Ok v) /\
  (forall e, all_ok outs = Err e -> exists e', gather order outs = Err e').
Proof.
  split.
  - intros v Hv. unfold gather. destruct (first_failure order outs) as [e|] eqn:Ef; [|exact Hv].
    apply first_failure_in in Ef.
    destruct ((proj1 (all_ok_err outs)) v Hv (Err e) Ef) as [b Hb]. discriminate.
  - intros e He. unfold gather. destruct (first_failure order outs) as [e'|]; [exists e'; reflexivity|].
    exists e. exact He.
Qed.

(** ** The asynchronous variants against the synchronous ones *)

Lemma all_ok_map {A B : Type} (f : A -> result B) (xs : list A) :
  all_ok (map f xs) = map_py f xs.
Proof. induction xs as [|x xs IH]; [reflexivity|]. simpl. rewrite IH. reflexivity. Qed.

Lemma bind_ok_iff {A B : Type} (m1 m2 : result A) (k : A -> result B) :
  (forall v, m1 = Ok v <-> m2 = Ok v) -> forall b, bind m1 k = Ok b <-> bind m2 k = Ok b.
Proof.
  intros H b. destruct m1 as [v1|e1], m2 as [v2|e2]; simpl.
  - assert (v1 = v2) by (destruct (H v1) as [H1 _]; injection (H1 eq_refl); auto). subst. tauto.
  - destruct (H v1) as [H1 _]. discriminate (H1 eq_refl).
  - destruct (H v2) as [_ H1]. discriminate (H1 eq_refl).
  - split; discriminate.
Qed.

Lemma async_groups_sync_calls {X : Type} sched (fa : list (afun X pyval)) (fe : list (efun X))
    items :
  Forall2 (fun a g => is_coro a = true /\ forall x, acall a x = g x) fa fe ->
  forall k0 v, snd (async_groups sched k0 fa items) = Ok v <->
    (res <- map_py (fun f => map_py f items) fe ;; map_py np_array_vals res) = Ok v.
Proof.
  intros H. induction H as [|a g fa fe [Hc Hg] Hrest IH]; intros k0 v; [simpl; tauto|].
  simpl. unfold async_evaluate. rewrite Hc. simpl.
  rewrite (map_ext _ _ Hg).
  destruct (gather_all_ok (sched k0 (length items)) (map g items)) as [Gok Gerr].
  rewrite all_ok_map in Gok, Gerr.
  destruct (map_py g items) as [r|e] eqn:Er.
  - rewrite (Gok r eq_refl). simpl.
    destruct (np_array_vals r) as [ar|e] eqn:Ea.
    + specialize (IH (S k0)).
      destruct (async_groups sched (S k0) fa items) as [tr' rest]. simpl in IH |- *.
      destruct (map_py (fun f => map_py f items) fe) as [res'|e'] eqn:Eres; simpl in IH |- *.
      * rewrite Ea. simpl.
        destruct (map_py np_array_vals res') as [ars|e''] eqn:Eas; simpl.
        -- destruct rest as [rs|e3]; simpl.
           ++ assert (rs = ars) by (destruct (IH rs) as [H1 _]; injection (H1 eq_refl); auto).
              subst. tauto.
           ++ destruct (IH ars) as [_ H1]. discriminate (H1 eq_refl).
        -- destruct rest as [rs|e3]; simpl; [|split; discriminate].
           destruct (IH rs) as [H1 _]. discriminate (H1 eq_refl).
      * destruct rest as [rs|e3]; simpl; [|split; discriminate].
        destruct (IH rs) as [H1 _]. discriminate (H1 eq_refl).
    + destruct (map_py (fun f => map_py f items) fe); simpl; [rewrite Ea; simpl|]; split; discriminate.
  - destruct (Gerr e eq_refl) as [e' ->]. simpl. split; discriminate.
Qed.

(** X7. [AsyncElementWiseObjective] with coroutine functions and
    [ElementWiseObjective] with the corresponding synchronous functions and
    the same directions agree: one returns a matrix exactly when the other
    does, and it is the same matrix, whatever the completion order. *)
Theorem async_matches_elementwise {X : Type} sched (oa : objective (afun X pyval))
    (oe : objective (efun X)) items :
  Forall2 (fun a g => is_coro a = true /\ forall x, acall a x = g x)
          (objective_functions oa) (objective_functions oe) ->
  directions oa = directions oe ->
  forall b, snd (AsyncElementWise_evaluate sched oa items) = Ok b <-> ElementWise_evaluate oe items = Ok b.
Proof.
  intros Hf Hd b. rewrite AsyncElementWise_evaluate_split. unfold AsyncElementWise_solutions.
  pose proof (async_groups_sync_calls sched _ _ items Hf 0) as Hg.
  destruct (async_groups sched 0 (objective_functions oa) items) as [tr res]. simpl in Hg |- *.
  unfold ElementWise_evaluate, ElementWise_solutions. rewrite Hd.
  assert (Hs : forall v, (rs <- res ;; sols <- np_array_rows (flat_map ew_columns rs) ;;
                          Ok (transpose sols)) = Ok v <->
                         (res0 <- map_py (fun f => map_py f items) (objective_functions oe) ;;
                          arrs <- map_py np_array_vals res0 ;;
                          sols <- np_array_rows (flat_map ew_columns arrs) ;;
                          Ok (transpose sols)) = Ok v).
  { intros v. rewrite (bind_ok_iff res _ _ Hg v).
    destruct (map_py (fun f => map_py f items) (objective_functions oe)); simpl; tauto. }
  apply (bind_ok_iff _ _ _ Hs).
Qed.

(** ** Batching against the whole population *)

Lemma batches_nat_concat {A : Type} (l : list A) (b : nat) :
  (0 < b)%nat -> concat (batches_nat l b) = l.
Proof.
  intros Hb. unfold batches_nat.
  pose proof (Nat.div_mod_eq (length l) b) as Hdm.
  destruct (Nat.eqb_spec (length l mod b) 0) as [H0|H0].
  - rewrite concat_chunks. apply firstn_all2. lia.
  - rewrite concat_app, concat_chunks. simpl. rewrite app_nil_r. apply firstn_skipn.
Qed.

Lemma batches_nat_nonempty {A : Type} (l : list A) (b : nat) :
  (0 < b)%nat -> l <> [] -> batches_nat l b <> [].
Proof.
  intros Hb Hl. unfold batches_nat.
  pose proof (Nat.div_mod_eq (length l) b) as Hdm.
  assert (Hn : (0 < length l)%nat) by (destruct l; [contradiction|simpl; lia]).
  destruct (Nat.eqb_spec (length l mod b) 0) as [H0|H0].
  - destruct (length l / b) eqn:Eq; [lia|]. simpl. discriminate.
  - intros H. apply app_eq_nil in H. destruct H as [_ H]. discriminate.
Qed.

Lemma map_py_app {A B : Type} (f : A -> result B) (l1 l2 : list A) :
  map_py f (l1 ++ l2) = (v1 <- map_py f l1 ;; v2 <- map_py f l2 ;; Ok (v1 ++ v2)).
Proof.
  induction l1 as [|x l1 IH]; simpl.
  - destruct (map_py f l2); reflexivity.
  - destruct (f x); simpl; [|reflexivity]. rewrite IH.
    destruct (map_py f l1); simpl; [|reflexivity]. destruct (map_py f l2); reflexivity.
Qed.

Lemma map_py_concat {A B : Type} (f : A -> result B) (bs : list (list A)) (vs : list B) :
  map_py f (concat bs) = Ok vs ->
  exists vss, map_py (map_py f) bs = Ok vss /\ concat vss = vs.
Proof.
  revert vs. induction bs as [|b bs IH]; intros vs H; simpl in H.
  - injection H as <-. exists []. split; reflexivity.
  - rewrite map_py_app in H.
    destruct (map_py f b) as [v1|e] eqn:E1; simpl in H; [|discriminate].
    destruct (map_py f (concat bs)) as [v2|e]; simpl in H; [|discriminate].
    injection H as <-. destruct (IH v2 eq_refl) as [vss [H1 H2]].
    exists (v1 :: vss). simpl. rewrite E1. simpl. rewrite H1. split; [reflexivity|]. simpl. rewrite H2. reflexivity.
Qed.

Lemma map_py_vectorized {X : Type} (k : nat) (g : X -> result (list Z)) (bs : list (list X)) vss :
  map_py (map_py g) bs = Ok vss -> map_py (vectorized_of k g) bs = Ok (map (A2 k) vss).
Proof.
  revert vss. induction bs as [|b bs IH]; intros vss H; simpl in H.
  - injection H as <-. reflexivity.
  - destruct (map_py g b) as [v|e] eqn:Ev; simpl in H; [|discriminate].
    destruct (map_py (map_py g) bs) as [vs'|e]; simpl in H; [|discriminate].
    injection H as <-. simpl. unfold vectorized_of at 1. rewrite Ev. simpl.
    rewrite (IH vs' eq_refl). reflexivity.
Qed.

Lemma np_concatenate_blocks (k : nat) (vss : list (list (list Z))) :
  vss <> [] -> np_concatenate (map (A2 k) vss) = Ok (A2 k (concat vss)).
Proof.
  intros Hne. destruct vss as [|v vss]; [contradiction|]. simpl. rewrite Nat.eqb_refl.
  assert (H : all_some (map (fun a => match a with
                                      | A2 c' rows => if Nat.eqb c' k then Some rows else None
                                      | A1 _ => None end) (map (A2 k) vss)) = Some vss).
  { induction vss as [|w vss IH]; [reflexivity|]. simpl. rewrite Nat.eqb_refl.
    rewrite IH by discriminate. reflexivity. }
  rewrite H. reflexivity.
Qed.

Lemma batch_groups_vectorized {X : Type} sched (fa : list (afun (list X) ndarray))
    (kgs : list (nat * (X -> result (list Z)))) (bs : list (list X)) :
  Forall2 (fun a kg => is_coro a = true /\ forall b, acall a b = vectorized_of (fst kg) (snd kg) b)
          fa kgs ->
  bs <> [] ->
  Forall (fun kg => exists vs, map_py (snd kg) (concat bs) = Ok vs) kgs ->
  forall k0, snd (batch_groups sched k0 fa bs) =
    map_py (fun f => f (concat bs)) (map (fun kg => vectorized_of (fst kg) (snd kg)) kgs).
Proof.
  intros H Hne Hok. induction H as [|a [k g] fa kgs [Hc Hg] Hrest IH]; intros k0; [reflexivity|].
  inversion Hok as [|? ? [vs Hvs] Hok']; subst. simpl in Hvs, Hg.
  destruct (map_py_concat g bs vs Hvs) as [vss [Hvss Hcat]].
  simpl. rewrite Hc. simpl. unfold async_evaluate. rewrite Hc. simpl.
  rewrite (map_ext _ _ Hg).
  destruct (gather_all_ok (sched k0 (length bs)) (map (vectorized_of k g) bs)) as [Gok _].
  rewrite all_ok_map in Gok. rewrite (Gok _ (map_py_vectorized k g bs vss Hvss)).
  assert (Hvne : vss <> []).
  { intros ->. destruct bs; [contradiction|]. simpl in Hvss.
    destruct (map_py g l); simpl in Hvss; [|discriminate].
    destruct (map_py (map_py g) bs); discriminate. }
  rewrite (np_concatenate_blocks k vss Hvne).
  specialize (IH Hok' (S k0)).
  destruct (batch_groups sched (S k0) fa bs) as [tr' rest]. simpl in IH |- *. rewrite IH.
  unfold vectorized_of at 2. rewrite Hvs. simpl. rewrite Hcat. reflexivity.
Qed.

(** X8. Batching is transparent for functions that work candidate by
    candidate: if every function maps a batch to the matrix of its
    candidates' rows (k columns), then for any [batch_size] >= 1 and a
    non-empty population on which every per-candidate computation succeeds,
    [BatchObjective] returns exactly what [Objective] returns for the same
    functions on the whole population, whatever the completion order. *)
Theorem batch_matches_whole_population {X : Type} sched
    (bo : batch_objective (afun (list X) ndarray)) (o : objective (vfun X)) (items : list X)
    (kgs : list (nat * (X -> result (list Z)))) :
  (1 <= batch_size bo)%Z -> items <> [] ->
  Forall2 (fun a kg => is_coro a = true /\ forall b, acall a b = vectorized_of (fst kg) (snd kg) b)
          (objective_functions (batch_base bo)) kgs ->
  objective_functions o = map (fun kg => vectorized_of (fst kg) (snd kg)) kgs ->
  directions (batch_base bo) = directions o ->
  Forall (fun kg => exists vs, map_py (snd kg) items = Ok vs) kgs ->
  snd (Batch_evaluate sched bo items) = Objective_evaluate o items.
Proof.
  intros HB Hne Hf Ho Hd Hok.
  rewrite Batch_evaluate_split. unfold Batch_solutions.
  replace (batch_size bo) with (Z.of_nat (Z.to_nat (batch_size bo))) by lia.
  rewrite make_batches_nat by lia.
  set (bs := batches_nat items (Z.to_nat (batch_size bo))).
  assert (Hcat : concat bs = items) by (apply batches_nat_concat; lia).
  assert (Hbne : bs <> []) by (apply batches_nat_nonempty; [lia|exact Hne]).
  rewrite <- Hcat in Hok.
  pose proof (batch_groups_vectorized sched _ kgs bs Hf Hbne Hok 0) as Hg.
  destruct (batch_groups sched 0 (objective_functions (batch_base bo)) bs) as [tr res].
  simpl in Hg |- *. rewrite Hg, Hcat.
  unfold Objective_evaluate, Objective_solutions. rewrite Ho, Hd. reflexivity.
Qed.

(** ** Shape errors of the stacking *)

Lemma map_py_err_in {A B : Type} (f : A -> result B) (xs : list A) (e : exc) :
  map_py f xs = Err e -> exists x, In x xs /\ f x = Err e.
Proof.
  induction xs as [|x xs IH]; simpl; [discriminate|].
  destruct (f x) as [y|e'] eqn:Ex; simpl.
  - destruct (map_py f xs) as [ys|e'']; simpl; [discriminate|].
    intros H. injection H as ->. destruct (IH eq_refl) as [x' [Hin Hx']].
    exists x'. split; [right; exact Hin|exact Hx'].
  - intros H. injection H as ->. exists x. split; [left; reflexivity|exact Ex].
Qed.

Lemma map_py_some_err {A B : Type} (f : A -> result B) (xs : list A) (x : A) (e : exc) :
  (forall y e', f y = Err e' -> e' = e) -> In x xs -> f x = Err e -> map_py f xs = Err e.
Proof.
  intros Hall Hin Hx. destruct (map_py f xs) as [ys|e'] eqn:E.
  - destruct (map_py_ok_inv f xs ys E x Hin) as [b Hb]. congruence.
  - destruct (map_py_err_in f xs e' E) as [y [_ Hy]]. rewrite (Hall y e' Hy). reflexivity.
Qed.

Lemma np_array_vals_err (r : list pyval) (e : exc) : np_array_vals r = Err e -> e = ValueError.
Proof.
  unfold np_array_vals. destruct r as [|v0 r]; [discriminate|].
  destruct (all_some (map scalar_of (v0 :: r))); [discriminate|].
  destruct (all_some (map vector_of (v0 :: r))); [|congruence].
  destruct (forallb _ _); congruence.
Qed.

Lemma all_some_in {A B : Type} (g : A -> option B) (l : list A) (l' : list B) (x : A) :
  all_some (map g l) = Some l' -> In x l -> exists y, g x = Some y /\ In y l'.
Proof.
  intros H Hin. apply all_some_map in H.
  assert (Hx : In (g x) (map g l)) by (apply in_map; exact Hin).
  rewrite H in Hx. apply in_map_iff in Hx. destruct Hx as [y [Hy Hy']].
  exists y. split; [symmetry; exact Hy|exact Hy'].
Qed.

Lemma np_array_vals_ragged (r : list pyval) (p1 p2 : pyval) :
  In p1 r -> In p2 r -> pyval_kind p1 <> pyval_kind p2 -> np_array_vals r = Err ValueError.
Proof.
  intros H1 H2 Hk. unfold np_array_vals. destruct r as [|v0 r]; [destruct H1|].
  destruct (all_some (map scalar_of (v0 :: r))) as [zs|] eqn:Es.
  { exfalso. destruct (all_some_in _ _ _ p1 Es H1) as [z1 [E1 _]].
    destruct (all_some_in _ _ _ p2 Es H2) as [z2 [E2 _]].
    destruct p1, p2; simpl in *; try discriminate. apply Hk. reflexivity. }
  destruct (all_some (map vector_of (v0 :: r))) as [vs|] eqn:Ev; [|reflexivity].
  destruct (forallb _ vs) eqn:Ef; [|reflexivity]. exfalso.
  rewrite forallb_forall in Ef.
  destruct (all_some_in _ _ _ p1 Ev H1) as [w1 [E1 I1]].
  destruct (all_some_in _ _ _ p2 Ev H2) as [w2 [E2 I2]].
  apply Ef, Nat.eqb_eq in I1. apply Ef, Nat.eqb_eq in I2.
  destruct p1, p2; simpl in *; try discriminate.
  injection E1 as ->. injection E2 as ->. apply Hk. congruence.
Qed.

(** X9. [ElementWiseObjective.evaluate] raises [ValueError] when one
    function returns, on two candidates, values numpy cannot stack: a
    number and a vector, or vectors of different lengths (once every call
    has succeeded). *)
Theorem elementwise_ragged_values {X : Type} (o : objective (efun X)) items res r p1 p2 :
  map_py (fun f => map_py f items) (objective_functions o) = Ok res ->
  In r res -> In p1 r -> In p2 r -> pyval_kind p1 <> pyval_kind p2 ->
  ElementWise_evaluate o items = Err ValueError.
Proof.
  intros Hres Hr H1 H2 Hk. unfold ElementWise_evaluate, ElementWise_solutions.
  rewrite Hres. simpl.
  rewrite (map_py_some_err np_array_vals res r ValueError np_array_vals_err Hr
             (np_array_vals_ragged r p1 p2 H1 H2 Hk)).
  reflexivity.
Qed.

Lemma np_array_rows_ragged (sols : list (list Z)) (r1 r2 : list Z) :
  In r1 sols -> In r2 sols -> length r1 <> length r2 -> np_array_rows sols = Err ValueError.
Proof.
  intros H1 H2 Hl. unfold np_array_rows. destruct sols as [|r sols]; [destruct H1|].
  destruct (forallb _ _) eqn:Ef; [|reflexivity]. exfalso.
  rewrite forallb_forall in Ef.
  apply Ef, Nat.eqb_eq in H1. apply Ef, Nat.eqb_eq in H2. congruence.
Qed.

(** X10. [Objective.evaluate] raises [ValueError] when two of the rows
    returned by its functions have different lengths (once every function
    has returned). *)
Theorem objective_ragged_rows {X : Type} (o : objective (vfun X)) items res r1 r2 :
  map_py (fun f => f items) (objective_functions o) = Ok res ->
  In r1 (flat_map rows_of res) -> In r2 (flat_map rows_of res) -> length r1 <> length r2 ->
  Objective_evaluate o items = Err ValueError.
Proof.
  intros Hres H1 H2 Hl. unfold Objective_evaluate, Objective_solutions. rewrite Hres. simpl.
  rewrite (np_array_rows_ragged _ r1 r2 H1 H2 Hl). reflexivity.
Qed.

Lemma map_py_flat {X : Type} (fs : list (vfun X)) (items : list X) :
  Forall (fun f => exists v, f items = Ok (A1 v) /\ length v = length items) fs ->
  exists vs, map_py (fun f => f items) fs = Ok (map A1 vs) /\ length vs = length fs /\
             Forall (fun v => length v = length items) vs.
Proof.
  intros H. induction H as [|f fs [v [Hv Hl]] _ IH].
  - exists []. split; [reflexivity|]. split; [reflexivity|constructor].
  - destruct IH as [vs [Hm [Hn Hf]]]. exists (v :: vs).
    simpl. rewrite Hv. simpl. rewrite Hm. simpl.
    split; [reflexivity|]. split; [rewrite Hn; reflexivity|constructor; assumption].
Qed.

(** X11. An [Objective] whose functions each return a flat array with one
    value per candidate raises [ValueError] when the number of candidates
    is neither 1 nor [len(directions)] and [len(directions)] is not 1:
    numpy cannot broadcast the (functions, candidates) stack against the
    directions. *)
Theorem objective_flat_broadcast_error {X : Type} (o : objective (vfun X)) (items : list X) :
  objective_functions o <> [] ->
  Forall (fun f => exists v, f items = Ok (A1 v) /\ length v = length items)
         (objective_functions o) ->
  length items <> length (directions o) -> length items <> 1%nat ->
  length (directions o) <> 1%nat ->
  Objective_evaluate o items = Err ValueError.
Proof.
  intros Hne Hf H1 H2 H3. destruct (map_py_flat _ items Hf) as [vs [Hm [Hn Hl]]].
  unfold Objective_evaluate, Objective_solutions. rewrite Hm. simpl.
  assert (Hfm : flat_map rows_of (map A1 vs) = vs).
  { clear. induction vs as [|v vs IH]; [reflexivity|]. simpl. rewrite IH. reflexivity. }
  rewrite Hfm. destruct vs as [|v vs]; [destruct (objective_functions o); [contradiction|discriminate]|].
  unfold np_array_rows.
  inversion Hl as [|? ? Hv _]; subst.
  replace (forallb _ _) with true.
  2:{ symmetry. apply forallb_forall. intros s Hs. apply Nat.eqb_eq.
      rewrite (proj1 (Forall_forall _ _) Hl s Hs). symmetry. exact Hv. }
  simpl. rewrite Hv. unfold broadcast_width.
  destruct (Nat.eqb_spec (length items) (length (directions o))); [contradiction|].
  destruct (Nat.eqb_spec (length (directions o)) 1); [contradiction|].
  destruct (Nat.eqb_spec (length items) 1); [contradiction|]. reflexivity.
Qed.

(** ** Reversing the directions *)

Lemma mul_pointwise_opp (row ds : list Z) :
  mul_pointwise row (map Z.opp ds) = map Z.opp (mul_pointwise row ds).
Proof.
  revert ds. induction row as [|x row IH]; intros [|d ds]; simpl; try reflexivity.
  rewrite IH, Z.mul_opp_r. reflexivity.
Qed.

Lemma mul_row_opp (row ds : list Z) :
  mul_row row (map Z.opp ds) = map Z.opp (mul_row row ds).
Proof.
  unfold mul_row. rewrite length_map.
  destruct (Nat.eqb (length row) (length ds)); [apply mul_pointwise_opp|].
  destruct (Nat.eqb (length ds) 1).
  - rewrite map_map. apply map_ext. intros x. destruct ds as [|d ds]; simpl; lia.
  - rewrite !map_map. apply map_ext. intros d. lia.
Qed.

Lemma mul_directions_opp (a : ndarray) (ds : list Z) :
  mul_directions a (map Z.opp ds) = neg_result (mul_directions a ds).
Proof.
  destruct a as [v|c rows]; simpl; rewrite length_map.
  - destruct (broadcast_width (length v) (length ds)); simpl; [|reflexivity].
    rewrite mul_row_opp. reflexivity.
  - destruct (broadcast_width c (length ds)); simpl; [|reflexivity].
    rewrite map_map. f_equal. f_equal. apply map_ext. intros r. apply mul_row_opp.
Qed.

Lemma parse_directions_swap (toks : list string) :
  parse_directions (map swap_direction toks) =
  (d <- parse_directions toks ;; Ok (map Z.opp d)).
Proof.
  induction toks as [|t toks IH]; [reflexivity|].
  simpl map. cbn [parse_directions].
  destruct (String.eqb_spec t "minimize") as [->|Hmin].
  - cbn. rewrite IH. destruct (parse_directions toks); reflexivity.
  - destruct (String.eqb_spec t "maximize") as [->|Hmax].
    + cbn. rewrite IH. destruct (parse_directions toks); reflexivity.
    + unfold swap_direction.
      apply String.eqb_neq in Hmin. apply String.eqb_neq in Hmax. rewrite Hmin, Hmax. simpl.
      rewrite Hmin, Hmax. reflexivity.
Qed.

Lemma Objective_init_swap {F : Type} (fa : funs_arg F) num toks ns tp (o : objective F) :
  Objective_init fa num (Some toks) ns tp = Ok o ->
  Objective_init fa num (Some (map swap_direction toks)) ns tp = Ok (negate_directions o).
Proof.
  unfold Objective_init. rewrite length_map, parse_directions_swap.
  destruct (negb _); simpl; [discriminate|].
  destruct (parse_directions toks) as [d|e]; simpl; [|discriminate].
  destruct (match ns with
            | None => Ok (default_names (num_objectives_of fa num))
            | Some ns0 => if negb (Z.of_nat (length ns0) =? num_objectives_of fa num)%Z
                          then Err ValueError else Ok ns0
            end) as [names|e]; simpl; [|discriminate].
  intros H. injection H as <-. reflexivity.
Qed.

(** X12. Swapping every "minimize" with "maximize" and back in the
    [directions] of a construction call still constructs (for
    [BatchObjective] too), and exactly negates every entry [evaluate]
    returns, for all four variants; the tasks created are unchanged. *)
Theorem swapped_directions_negate {X : Type} :
  (forall (F : Type) (fa : funs_arg F) num toks ns tp (o : objective F),
     Objective_init fa num (Some toks) ns tp = Ok o ->
     Objective_init fa num (Some (map swap_direction toks)) ns tp = Ok (negate_directions o) /\
     (forall b, BatchObjective_init fa (Some b) num (Some (map swap_direction toks)) ns tp =
                Ok (mkBatch (negate_directions o) b))) /\
  (forall (o : objective (vfun X)) items,
     Objective_evaluate (negate_directions o) items = neg_result (Objective_evaluate o items)) /\
  (forall (o : objective (efun X)) items,
     ElementWise_evaluate (negate_directions o) items = neg_result (ElementWise_evaluate o items)) /\
  (forall sched (o : objective (afun X pyval)) items,
     AsyncElementWise_evaluate sched (negate_directions o) items =
       (fst (AsyncElementWise_evaluate sched o items),
        neg_result (snd (AsyncElementWise_evaluate sched o items)))) /\
  (forall sched (bo : batch_objective (afun (list X) ndarray)) items,
     Batch_evaluate sched (mkBatch (negate_directions (batch_base bo)) (batch_size bo)) items =
       (fst (Batch_evaluate sched bo items), neg_result (snd (Batch_evaluate sched bo items)))).
Proof.
  split; [|split; [|split; [|split]]].
  - intros F fa num toks ns tp o H. pose proof (Objective_init_swap fa num toks ns tp o H) as H'.
    split; [exact H'|]. intros b. simpl. rewrite H'. reflexivity.
  - intros o items. unfold Objective_evaluate. simpl.
    destruct (Objective_solutions (objective_functions o) items); simpl; [|reflexivity].
    apply mul_directions_opp.
  - intros o items. unfold ElementWise_evaluate. simpl.
    destruct (ElementWise_solutions (objective_functions o) items); simpl; [|reflexivity].
    apply mul_directions_opp.
  - intros sched o items. rewrite !AsyncElementWise_evaluate_split.
    change (AsyncElementWise_solutions sched (negate_directions o) items)
      with (AsyncElementWise_solutions sched o items).
    simpl. destruct (snd (AsyncElementWise_solutions sched o items)); simpl; [|reflexivity].
    rewrite mul_directions_opp. reflexivity.
  - intros sched bo items. rewrite !Batch_evaluate_split.
    change (Batch_solutions sched (mkBatch (negate_directions (batch_base bo)) (batch_size bo)) items)
      with (Batch_solutions sched bo items).
    simpl. destruct (snd (Batch_solutions sched bo items)); simpl; [|reflexivity].
    rewrite mul_directions_opp. reflexivity.
Qed.

(** ** Instances of the further properties *)

(** X1 with two names for one objective function. *)
Lemma Objective_init_bad_names_witness :
  Objective_init (FunList [(fun _ => Ok (A1 [])) : vfun Z]) None None
    (Some ["cost"; "time"]%string) None = Err ValueError /\
  (forall b, BatchObjective_init (FunList [(fun _ => Ok (A1 [])) : vfun Z]) (Some b) None None
               (Some ["cost"; "time"]%string) None = Err ValueError).
Proof.
  apply Objective_init_bad_names. simpl. lia.
Defined.

(** X5 with one coroutine function and batches of two. *)
Lemma batch_empty_population_witness :
  Batch_evaluate (fun _ n => seq 0 n)
    (mkBatch (mkObjective [mkAfun true (fun b : list Z => Ok (A1 b))] 1%Z [1%Z]
                          ["objective_0"%string] None) 2%Z) [] = ([], Err ValueError).
Proof.
  apply batch_empty_population; simpl; discriminate.
Defined.

(** X6 with three candidates in batches of size -2. *)
Lemma batch_negative_size_witness :
  make_batches [1; 2; 3]%Z (-2)%Z = Ok [[]] /\
  (forall j b, In (j, b) (fst (Batch_evaluate (fun _ n => seq 0 n)
                 (mkBatch (mkObjective [mkAfun true (fun b : list Z => Ok (A1 b))] 1%Z [1%Z]
                                       ["objective_0"%string] None) (-2)%Z) [1; 2; 3]%Z)) ->
               b = []).
Proof.
  destruct (batch_negative_size (fun _ n => seq 0 n)
              (mkBatch (mkObjective [mkAfun true (fun b : list Z => Ok (A1 b))] 1%Z [1%Z]
                                    ["objective_0"%string] None) (-2)%Z) [1; 2; 3]%Z
              ltac:(simpl; lia)) as [H1 H2].
  split; [exact H1|exact H2].
Defined.

(** X7 with the square function on candidates [1; 2]: the asynchronous
    variant returns the matrix of the synchronous one. *)
Lemma async_matches_elementwise_witness :
  ElementWise_evaluate
    (mkObjective [(fun x : Z => Ok (Scalar (x * x))) : efun Z] 1%Z [1%Z]
                 ["objective_0"%string] None) [1; 2]%Z = Ok (A2 1 [[1]; [4]]%Z) /\
  snd (AsyncElementWise_evaluate (fun _ n => rev (seq 0 n))
         (mkObjective [mkAfun true (fun x : Z => Ok (Scalar (x * x)))] 1%Z [1%Z]
                      ["objective_0"%string] None) [1; 2]%Z) = Ok (A2 1 [[1]; [4]]%Z).
Proof.
  assert (HE : ElementWise_evaluate
                 (mkObjective [(fun x : Z => Ok (Scalar (x * x))) : efun Z] 1%Z [1%Z]
                              ["objective_0"%string] None) [1; 2]%Z = Ok (A2 1 [[1]; [4]]%Z))
    by reflexivity.
  split; [exact HE|].
  apply (proj2 (async_matches_elementwise (fun _ n => rev (seq 0 n))
                  (mkObjective [mkAfun true (fun x : Z => Ok (Scalar (x * x)))] 1%Z [1%Z]
                               ["objective_0"%string] None)
                  (mkObjective [(fun x : Z => Ok (Scalar (x * x))) : efun Z] 1%Z [1%Z]
                               ["objective_0"%string] None) [1; 2]%Z
                  ltac:(constructor; [split; [reflexivity|intros x; reflexivity]|constructor])
                  eq_refl (A2 1 [[1]; [4]]%Z))).
  exact HE.
Defined.

(** X8 with the function [x => [x * x]] on three candidates in batches of
    two. *)
Lemma batch_matches_whole_population_witness :
  snd (Batch_evaluate (fun _ n => rev (seq 0 n))
         (mkBatch (mkObjective [mkAfun true (vectorized_of 1 (fun x : Z => Ok [x * x]%Z))]
                               1%Z [1%Z] ["objective_0"%string] None) 2%Z) [1; 2; 3]%Z) =
  Objective_evaluate (mkObjective [vectorized_of 1 (fun x : Z => Ok [x * x]%Z)]
                                  1%Z [1%Z] ["objective_0"%string] None) [1; 2; 3]%Z.
Proof.
  apply (batch_matches_whole_population _ _ _ _ [(1%nat, fun x : Z => Ok [x * x]%Z)]).
  - simpl. lia.
  - discriminate.
  - constructor; [split; [reflexivity|intros b; reflexivity]|constructor].
  - reflexivity.
  - reflexivity.
  - constructor; [eexists; reflexivity|constructor].
Defined.

(** X9 with a function giving a number on candidate 1 and a vector on
    candidate 2. *)
Lemma elementwise_ragged_values_witness :
  ElementWise_evaluate
    (mkObjective [(fun x : Z => if (x =? 1)%Z then Ok (Scalar x) else Ok (Vector [x; x]))
                   : efun Z] 1%Z [1%Z] ["objective_0"%string] None) [1; 2]%Z = Err ValueError.
Proof.
  apply (elementwise_ragged_values _ _ [[Scalar 1; Vector [2; 2]]%Z] [Scalar 1; Vector [2; 2]]%Z
           (Scalar 1%Z) (Vector [2; 2]%Z)).
  - reflexivity.
  - left; reflexivity.
  - left; reflexivity.
  - right; left; reflexivity.
  - discriminate.
Defined.

(** X10 with two functions returning rows of lengths 2 and 1. *)
Lemma objective_ragged_rows_witness :
  Objective_evaluate
    (mkObjective [(fun _ : list Z => Ok (A1 [1; 2]%Z)) : vfun Z; (fun _ => Ok (A1 [3%Z]))]
                 2%Z [1%Z; 1%Z] ["objective_0"; "objective_1"]%string None) [7; 8]%Z
  = Err ValueError.
Proof.
  apply (objective_ragged_rows _ _ [A1 [1; 2]%Z; A1 [3%Z]] [1; 2]%Z [3%Z]).
  - reflexivity.
  - left; reflexivity.
  - right; left; reflexivity.
  - discriminate.
Defined.

(** X11 with two flat functions, their two default directions and three
    candidates. *)
Lemma objective_flat_broadcast_error_witness :
  Objective_evaluate
    (mkObjective [(fun ps : list Z => Ok (A1 ps)) : vfun Z;
                  (fun ps => Ok (A1 (map (fun p => 10 * p)%Z ps)))]
                 2%Z [1%Z; 1%Z] ["objective_0"; "objective_1"]%string None) [1; 2; 3]%Z
  = Err ValueError.
Proof.
  apply objective_flat_broadcast_error; simpl.
  - discriminate.
  - constructor; [eexists; split; reflexivity|].
    constructor; [eexists; split; reflexivity|constructor].
  - lia.
  - lia.
  - lia.
Defined.
